(** * Streaming upload to an S3-compatible store:
      [services/v1/s3/upload.py] ([get_filename_from_url],
      [stream_upload_to_s3]).

    The S3 client and the HTTP source are external collaborators: they are
    modelled as oracles.  Every S3 client call made by the program is
    recorded, in order, in a trace; the store's answer to a call may depend
    on the whole history of earlier calls.  Python exceptions are values of
    [exn]; a computation returns [Ok] or [Err] ([raise]).

    Strings ([str] in Python) are Rocq strings read as their UTF-8 bytes;
    request payloads ([bytearray]) are lists of bytes. *)

From Stdlib Require Import String Ascii List ZArith Lia Bool.
Import ListNotations.
Open Scope string_scope.
Open Scope nat_scope.
Open Scope list_scope.

(** ** Python values *)

Inductive exn : Type := Exn (cls : string) (msg : string).

Inductive res (A : Type) : Type :=
| Ok (a : A)
| Err (e : exn).
Arguments Ok {A} a.
Arguments Err {A} e.

Definition bytes : Type := list Byte.byte.

(** Python truthiness of [str] and of [bytearray]. *)
Definition str_truthy (s : string) : bool := negb (String.eqb s "").
Definition bytes_truthy (b : bytes) : bool :=
  match b with [] => false | _ => true end.

(** [f"{x}"] of a value read with [os.environ.get]: [None] prints as "None". *)
Definition fstr (o : option string) : string :=
  match o with Some s => s | None => "None" end.

(** ** String helpers, following [str] methods *)

(** [s.find(c)] *)
Fixpoint str_find (c : ascii) (s : string) : option nat :=
  match s with
  | EmptyString => None
  | String d r =>
      if Ascii.eqb c d then Some 0
      else option_map S (str_find c r)
  end.

(** [s.rfind(c)] *)
Fixpoint str_rfind (c : ascii) (s : string) : option nat :=
  match s with
  | EmptyString => None
  | String d r =>
      match str_rfind c r with
      | Some i => Some (S i)
      | None => if Ascii.eqb c d then Some 0 else None
      end
  end.

Definition str_in (c : ascii) (s : string) : bool :=
  match str_find c s with Some _ => true | None => false end.

(** [s[:i]] and [s[i:]] for [0 <= i]. *)
Definition str_take (i : nat) (s : string) : string := substring 0 i s.
Definition str_drop (i : nat) (s : string) : string :=
  substring i (String.length s - i) s.

Definition is_ascii_alpha (c : ascii) : bool :=
  let n := nat_of_ascii c in
  ((65 <=? n) && (n <=? 90)) || ((97 <=? n) && (n <=? 122)).
Definition is_ascii_digit (c : ascii) : bool :=
  let n := nat_of_ascii c in (48 <=? n) && (n <=? 57).

Definition ascii_lower (c : ascii) : ascii :=
  let n := nat_of_ascii c in
  if (65 <=? n) && (n <=? 90) then ascii_of_nat (n + 32) else c.
Fixpoint str_lower (s : string) : string :=
  match s with
  | EmptyString => EmptyString
  | String c r => String (ascii_lower c) (str_lower r)
  end.

(** [s.lstrip(_WHATWG_C0_CONTROL_OR_SPACE)]: the characters 0x00..0x20. *)
Fixpoint lstrip_c0 (s : string) : string :=
  match s with
  | EmptyString => EmptyString
  | String c r => if nat_of_ascii c <=? 32 then lstrip_c0 r else s
  end.

(** [for b in _UNSAFE_URL_BYTES_TO_REMOVE: url = url.replace(b, "")]:
    tab, CR and LF. *)
Fixpoint remove_unsafe (s : string) : string :=
  match s with
  | EmptyString => EmptyString
  | String c r =>
      let n := nat_of_ascii c in
      if (n =? 9) || (n =? 13) || (n =? 10) then remove_unsafe r
      else String c (remove_unsafe r)
  end.

(** ** [urllib.parse]: the [path] of [urlparse(url)] *)

(** [scheme_chars]: ASCII letters, digits and "+-.". *)
Definition is_scheme_char (c : ascii) : bool :=
  is_ascii_alpha c || is_ascii_digit c || str_in c "+-.".

Definition all_scheme_chars (s : string) : bool :=
  forallb is_scheme_char (list_ascii_of_string s).

(** [uses_params] *)
Definition uses_params : list string :=
  [""; "ftp"; "hdl"; "prospero"; "http"; "imap"; "https"; "shttp"; "rtsp";
   "rtsps"; "rtspu"; "sip"; "sips"; "mms"; "sftp"; "tel"].

(** [_splitnetloc(url, 2)]: the netloc ends at the first of '/', '?', '#'. *)
Definition splitnetloc (url : string) : string * string :=
  let rest := str_drop 2 url in
  let delims := [str_find "/"%char rest; str_find "?"%char rest; str_find "#"%char rest] in
  let delim := fold_left (fun d o => match o with Some i => Nat.min d i | None => d end)
                 delims (String.length rest) in
  (str_take delim rest, str_drop delim rest).

(** [_splitparams(url)], first component. *)
Definition splitparams_path (url : string) : string :=
  match str_rfind "/"%char url with
  | Some j =>
      match str_find ";"%char (str_drop j url) with
      | Some k => str_take (j + k) url
      | None => url
      end
  | None =>
      match str_find ";"%char url with
      | Some i => str_take i url
      | None => url
      end
  end.

(** [urlparse(url).path].  [urlsplit] raises [ValueError] on a netloc with
    unbalanced brackets; its other [ValueError]s are not modelled: the
    validation of a bracketed IPv6 host ([_check_bracketed_host],
    [ipaddress]) and the NFKC check of non-ASCII netlocs ([_checknetloc]).
    On such URLs (http://[abc]/x, or a host holding U+2100) Python raises
    where this model returns the path, so no statement below says which
    URLs fail to parse. *)
Definition urlparse_path (url0 : string) : res string :=
  let url := remove_unsafe (lstrip_c0 url0) in
  let '(scheme, url) :=
    match str_find ":"%char url with
    | Some i =>
        match url with
        | String c0 _ =>
            if (0 <? i) && is_ascii_alpha c0 && all_scheme_chars (str_take i url)
            then (str_lower (str_take i url), str_drop (S i) url)
            else (""%string, url)
        | EmptyString => (""%string, url)
        end
    | None => (""%string, url)
    end in
  let '(netloc, url) :=
    if String.prefix "//" url then splitnetloc url else (""%string, url) in
  if xorb (str_in "["%char netloc) (str_in "]"%char netloc)
  then Err (Exn "ValueError" "Invalid IPv6 URL")
  else
    let url := match str_find "#"%char url with Some i => str_take i url | None => url end in
    let url := match str_find "?"%char url with Some i => str_take i url | None => url end in
    if existsb (String.eqb scheme) uses_params && str_in ";"%char url
    then Ok (splitparams_path url)
    else Ok url.

(** [unquote(s)]: a '%' followed by two hex digits is the byte they denote;
    any other '%' is kept.  Strings are read as UTF-8 bytes; the replacement
    of decoded bytes that are not valid UTF-8 by U+FFFD is not modelled. *)
Definition hex_value (c : ascii) : option nat :=
  let n := nat_of_ascii c in
  if (48 <=? n) && (n <=? 57) then Some (n - 48)
  else if (65 <=? n) && (n <=? 70) then Some (n - 55)
  else if (97 <=? n) && (n <=? 102) then Some (n - 87)
  else None.

Fixpoint unquote (s : string) : string :=
  match s with
  | EmptyString => EmptyString
  | String c tl =>
      if Ascii.eqb c "%"%char then
        match tl with
        | String h1 (String h2 rest) =>
            match hex_value h1, hex_value h2 with
            | Some a, Some b => String (ascii_of_nat (16 * a + b)) (unquote rest)
            | _, _ => String c (unquote tl)
            end
        | _ => String c (unquote tl)
        end
      else String c (unquote tl)
  end.

(** [os.path.basename(p)] (posixpath): [p[p.rfind('/') + 1:]]. *)
Definition basename (p : string) : string :=
  match str_rfind "/"%char p with
  | Some i => str_drop (S i) p
  | None => p
  end.

(** [quote(s)] with the default [safe='/']: ASCII letters, digits,
    "_.-~" and "/" are kept, every other byte becomes "%XX". *)
Definition hex_digit (n : nat) : ascii :=
  if n <? 10 then ascii_of_nat (48 + n) else ascii_of_nat (55 + n).

Definition quote_char (c : ascii) : string :=
  if is_ascii_alpha c || is_ascii_digit c || str_in c "_.-~/"
  then String c EmptyString
  else String "%"%char (String (hex_digit (nat_of_ascii c / 16))
                          (String (hex_digit (nat_of_ascii c mod 16)) EmptyString)).

Fixpoint quote (s : string) : string :=
  match s with
  | EmptyString => EmptyString
  | String c r => (quote_char c ++ quote r)%string
  end.

(** [get_filename_from_url(url)]; [uuid4] is the text of the value
    [uuid.uuid4()] returns when it is called. *)
Definition get_filename_from_url (url uuid4 : string) : res string :=
  match urlparse_path url with
  | Err e => Err e
  | Ok path =>
      let filename := basename (unquote path) in
      Ok (if str_truthy filename then filename else uuid4)
  end.

(** ** The S3 client, the HTTP source and the environment *)

(** A completed-part record [{'PartNumber': n, 'ETag': tag}]. *)
Definition part : Type := (Z * string)%type.

(** The calls of the boto3 S3 client of the multipart protocol.  The
    program issues all but [AbortMultipartUpload]. *)
Inductive call : Type :=
| CreateMultipartUpload (bucket : option string) (key acl : string)
| UploadPart (bucket : option string) (key : string) (part_number : Z)
    (upload_id : string) (body : bytes)
| CompleteMultipartUpload (bucket : option string) (key upload_id : string)
    (parts : list part)
| GeneratePresignedUrl (client_method : string) (bucket : option string)
    (key : string) (expires_in : Z)
| AbortMultipartUpload (bucket : option string) (key upload_id : string).

(** The store answers a call, given the calls made before it: the
    [UploadId] of a new session, the [ETag] of a part, the signed URL; the
    answer to [complete_multipart_upload] is not used by the program. *)
Record Store : Type := { respond : list call -> call -> res string }.

(** The body of [requests.get(url, stream=True)] after [raise_for_status()]:
    the chunks [iter_content] yields, then possibly the exception it raises
    when the stream breaks. *)
Record Response : Type := {
  chunks : list bytes;
  stream_error : option exn
}.

(** [os.environ.get('S3_BUCKET_NAME')], [os.getenv('S3_ENDPOINT_URL')], and
    the outcome of building the client in [get_s3_client()]. *)
Record Env : Type := {
  env_bucket : option string;
  env_endpoint : option string;
  s3_client_error : option exn
}.

(** ** The program monad: errors and the trace of S3 calls *)

Definition M (A : Type) : Type := list call -> res A * list call.

Definition ret {A} (a : A) : M A := fun s => (Ok a, s).

Definition bind {A B} (m : M A) (k : A -> M B) : M B :=
  fun s => match m s with
           | (Ok a, s') => k a s'
           | (Err e, s') => (Err e, s')
           end.

Definition lift {A} (r : res A) : M A := fun s => (r, s).

(** One S3 client call: recorded, then answered by the store. *)
Definition s3 (st : Store) (c : call) : M string :=
  fun s => (respond st s c, s ++ [c]).

Notation "x <- m ;; k" := (bind m (fun x => k))
  (at level 61, m at next level, right associativity).

(** [except Exception as e: logger.error(...); raise] *)
Definition except_reraise {A} (m : M A) : M A :=
  fun s => match m s with
           | (Err e, s') => (Err e, s')
           | r => r
           end.

(** ** [stream_upload_to_s3] *)

Definition chunk_size : Z := 5 * 1024 * 1024.

(** [for chunk in response.iter_content(...)]: the loop body appends the
    chunk and uploads the buffer once it holds [chunk_size] bytes. *)
Fixpoint upload_loop (st : Store) (bucket_name : option string)
    (filename upload_id : string) (it : list bytes) (buffer : bytes)
    (part_number : Z) (parts : list part) : M (bytes * Z * list part) :=
  match it with
  | [] => ret (buffer, part_number, parts)
  | chunk :: it' =>
      let buffer := buffer ++ chunk in
      if (Z.of_nat (length buffer) >=? chunk_size)%Z then
        etag <- s3 st (UploadPart bucket_name filename part_number upload_id buffer) ;;
        upload_loop st bucket_name filename upload_id it' []
          (part_number + 1)%Z (parts ++ [(part_number, etag)])
      else upload_loop st bucket_name filename upload_id it' buffer part_number parts
  end.

(** The end of the iteration: the iterator may raise. *)
Definition iter_end (r : Response) : res unit :=
  match stream_error r with Some e => Err e | None => Ok tt end.

Definition get_s3_client (env : Env) : res unit :=
  match s3_client_error env with Some e => Err e | None => Ok tt end.

(** [custom_filename or get_filename_from_url(file_url)] *)
Definition choose_filename (custom_filename : option string)
    (file_url uuid4 : string) : res string :=
  match custom_filename with
  | Some s => if str_truthy s then Ok s else get_filename_from_url file_url uuid4
  | None => get_filename_from_url file_url uuid4
  end.

Record UploadResult : Type := {
  r_file_url : string;
  r_filename : string;
  r_bucket : option string;
  r_public : bool
}.

(** [http] is [requests.get(file_url, stream=True)] followed by
    [raise_for_status()]; [uuid4] is the text of [uuid.uuid4()]. *)
Definition stream_upload_to_s3 (env : Env) (st : Store)
    (http : string -> res Response) (uuid4 : string)
    (file_url : string) (custom_filename : option string) (make_public : bool)
    : M UploadResult :=
  except_reraise (
    let bucket_name := env_bucket env in
    let endpoint_url := env_endpoint env in
    _ <- lift (get_s3_client env) ;;
    filename <- lift (choose_filename custom_filename file_url uuid4) ;;
    let acl := if make_public then "public-read" else "private" in
    upload_id <- s3 st (CreateMultipartUpload bucket_name filename acl) ;;
    response <- lift (http file_url) ;;
    loop <- upload_loop st bucket_name filename upload_id (chunks response) [] 1%Z [] ;;
    let '(buffer, part_number, parts) := loop in
    _ <- lift (iter_end response) ;;
    parts <- (if bytes_truthy buffer then
                etag <- s3 st (UploadPart bucket_name filename part_number upload_id buffer) ;;
                ret (parts ++ [(part_number, etag)])
              else ret parts) ;;
    _ <- s3 st (CompleteMultipartUpload bucket_name filename upload_id parts) ;;
    url <- (if make_public then
              ret (fstr endpoint_url ++ "/" ++ fstr bucket_name ++ "/" ++ quote filename)%string
            else s3 st (GeneratePresignedUrl "get_object" bucket_name filename 3600)) ;;
    ret {| r_file_url := url; r_filename := filename;
           r_bucket := bucket_name; r_public := make_public |}).

(** ** Views of a run used in the statements *)

(** The [(PartNumber, answer)] of every [upload_part] call of a trace, each
    answer being the store's answer at that point of the trace. *)
Fixpoint part_responses_from (st : Store) (h tr : list call) : list (Z * res string) :=
  match tr with
  | [] => []
  | c :: tr' =>
      match c with
      | UploadPart _ _ n _ _ => [(n, respond st h c)]
      | _ => []
      end ++ part_responses_from st (h ++ [c]) tr'
  end.

Definition part_responses (st : Store) (tr : list call) : list (Z * res string) :=
  part_responses_from st [] tr.

(** The bodies of the [upload_part] calls of a trace, in order. *)
Fixpoint upload_bodies (tr : list call) : list bytes :=
  match tr with
  | [] => []
  | UploadPart _ _ _ _ b :: tr' => b :: upload_bodies tr'
  | _ :: tr' => upload_bodies tr'
  end.

Definition is_abort (c : call) : bool :=
  match c with AbortMultipartUpload _ _ _ => true | _ => false end.

Definition count_abort (tr : list call) : nat := length (filter is_abort tr).

Definition is_complete (c : call) : bool :=
  match c with CompleteMultipartUpload _ _ _ _ => true | _ => false end.

Definition count_complete (tr : list call) : nat := length (filter is_complete tr).

Definition is_presign (c : call) : bool :=
  match c with GeneratePresignedUrl _ _ _ _ => true | _ => false end.

(** ** The Part Accumulator of the design (§4.2), for comparison *)

Module Accumulator.

(** [append]: the chunk is added; at [threshold] bytes or more the buffer
    is emitted as a part and emptied. *)
Definition append (threshold : Z) (buffer chunk : bytes) : option bytes * bytes :=
  let b := buffer ++ chunk in
  if (threshold <=? Z.of_nat (length b))%Z then (Some b, []) else (None, b).

Fixpoint feed (threshold : Z) (buffer : bytes) (it : list bytes) : list bytes * bytes :=
  match it with
  | [] => ([], buffer)
  | c :: it' =>
      let '(o, b) := append threshold buffer c in
      let '(ps, r) := feed threshold b it' in
      (match o with Some p => [p] | None => [] end ++ ps, r)
  end.

(** All parts: those [append] emits, then [flush] of the rest, which is
    not emitted when it is empty. *)
Definition parts (threshold : Z) (it : list bytes) : list bytes :=
  let '(ps, r) := feed threshold [] it in
  ps ++ match r with [] => [] | _ => [r] end.

End Accumulator.

(** ** Proof devices *)

(** The loop of [stream_upload_to_s3] cuts the stream into bodies whatever
    the store answers; [split_parts] is that cut, [upload_all] the uploads. *)
Fixpoint split_parts (it : list bytes) (buffer : bytes) : list bytes * bytes :=
  match it with
  | [] => ([], buffer)
  | chunk :: it' =>
      let buffer := buffer ++ chunk in
      if (Z.of_nat (length buffer) >=? chunk_size)%Z
      then let '(ps, r) := split_parts it' [] in (buffer :: ps, r)
      else split_parts it' buffer
  end.

Fixpoint upload_all (st : Store) (bucket_name : option string)
    (filename upload_id : string) (bodies : list bytes) (part_number : Z)
    (parts : list part) : M (Z * list part) :=
  match bodies with
  | [] => ret (part_number, parts)
  | b :: bs =>
      etag <- s3 st (UploadPart bucket_name filename part_number upload_id b) ;;
      upload_all st bucket_name filename upload_id bs (part_number + 1)%Z
        (parts ++ [(part_number, etag)])
  end.

Fixpoint upload_calls (bucket_name : option string) (filename upload_id : string)
    (bodies : list bytes) (part_number : Z) : list call :=
  match bodies with
  | [] => []
  | b :: bs => UploadPart bucket_name filename part_number upload_id b
               :: upload_calls bucket_name filename upload_id bs (part_number + 1)%Z
  end.

Fixpoint numbered (n : Z) (tags : list string) : list part :=
  match tags with
  | [] => []
  | t :: ts => (n, t) :: numbered (n + 1)%Z ts
  end.

Fixpoint responses (st : Store) (h cs : list call) : list (res string) :=
  match cs with
  | [] => []
  | c :: cs' => respond st h c :: responses st (h ++ [c]) cs'
  end.

(** The bodies the run uploads, in order: the loop's parts, then the rest
    of the buffer when it is not empty. *)
Definition planned_bodies (it : list bytes) : list bytes :=
  let '(ps, rest) := split_parts it [] in
  ps ++ (if bytes_truthy rest then [rest] else []).

(** Every call a computation appends satisfies [P]. *)
Definition appends {A} (P : call -> Prop) (m : M A) : Prop :=
  forall s, exists new, snd (m s) = s ++ new /\ Forall P new.

(** A failing S3 call ends the computation with its exception. *)
Definition fails_last {A} (st : Store) (s new : list call) (r : res A) : Prop :=
  forall h c rest e, new = h ++ c :: rest -> respond st (s ++ h) c = Err e ->
    rest = [] /\ r = Err e.

Definition propagates {A} (st : Store) (m : M A) : Prop :=
  forall s, exists new, snd (m s) = s ++ new /\ fails_last st s new (fst (m s)).

(** ** Views of the calls of a trace *)

Definition call_bucket (c : call) : option string :=
  match c with
  | CreateMultipartUpload b _ _ | UploadPart b _ _ _ _
  | CompleteMultipartUpload b _ _ _ | GeneratePresignedUrl _ b _ _
  | AbortMultipartUpload b _ _ => b
  end.

Definition call_key (c : call) : string :=
  match c with
  | CreateMultipartUpload _ k _ | UploadPart _ k _ _ _
  | CompleteMultipartUpload _ k _ _ | GeneratePresignedUrl _ _ k _
  | AbortMultipartUpload _ k _ => k
  end.

(** The [UploadId] a call names, if any. *)
Definition call_upload_id (c : call) : option string :=
  match c with
  | UploadPart _ _ _ u _ | CompleteMultipartUpload _ _ u _
  | AbortMultipartUpload _ _ u => Some u
  | _ => None
  end.

Definition is_create (c : call) : bool :=
  match c with CreateMultipartUpload _ _ _ => true | _ => false end.

Definition count_create (tr : list call) : nat := length (filter is_create tr).

(** * [src/config.py] *)

(** [os.environ]: [os.getenv(k)] and [os.environ.get(k)] are [environ k]. *)
Definition Environ : Type := string -> option string.

(** [os.environ.get(k, d)] *)
Definition environ_get (environ : Environ) (k d : string) : string :=
  match environ k with Some v => v | None => d end.

(** Truthiness of a value read with [os.getenv]: [None] and "" are false. *)
Definition opt_truthy (o : option string) : bool :=
  match o with Some s => str_truthy s | None => false end.

(** [sep.join(l)] *)
Fixpoint str_join (sep : string) (l : list string) : string :=
  match l with
  | [] => ""
  | [x] => x
  | x :: l' => (x ++ sep ++ str_join sep l')%string
  end.

(** [d[k]] on a dict given as an association list: [KeyError(k)] when absent. *)
Fixpoint dict_getitem {A} (d : list (string * A)) (k : string) : res A :=
  match d with
  | [] => Err (Exn "KeyError" k)
  | (k', v) :: d' => if String.eqb k k' then Ok v else dict_getitem d' k
  end.

(** The module-level constants of [config]. *)
Record Config : Type := {
  API_KEY : string;
  S3_BUCKET_NAME : string;
  S3_REGION : string;
  S3_ENDPOINT_URL : string;
  S3_ACCESS_KEY : string;
  S3_SECRET_KEY : string
}.

(** Importing [config]: [API_KEY] must be set and non-empty. *)
Definition config_module (environ : Environ) : res Config :=
  let api_key := environ "API_KEY" in
  if negb (opt_truthy api_key)
  then Err (Exn "ValueError" "API_KEY environment variable is not set")
  else Ok {| API_KEY := match api_key with Some k => k | None => "" end;
             S3_BUCKET_NAME := environ_get environ "MINIO_BUCKET_NAME" "";
             S3_REGION := environ_get environ "MINIO_REGION" "";
             S3_ENDPOINT_URL := environ_get environ "MINIO_ENDPOINT_URL" "";
             S3_ACCESS_KEY := environ_get environ "MINIO_ACCESS_KEY" "";
             S3_SECRET_KEY := environ_get environ "MINIO_SECRET_KEY" "" |}.

(** The dict [required_vars] built in [validate_env_vars]. *)
Definition required_vars : list (string * list string) :=
  [("S3", ["S3_BUCKET_NAME"; "S3_REGION"; "S3_ENDPOINT_URL"; "S3_ACCESS_KEY"; "S3_SECRET_KEY"])].

Definition validate_env_vars (environ : Environ) (provider : string) : res unit :=
  match dict_getitem required_vars provider with
  | Err e => Err e
  | Ok vars =>
      let missing_vars := filter (fun var => negb (opt_truthy (environ var))) vars in
      match missing_vars with
      | [] => Ok tt
      | _ => Err (Exn "ValueError" ("Missing environment variables for " ++ provider
                                    ++ " storage: " ++ str_join ", " missing_vars))
      end
  end.

(** An [S3CompatibleProvider] object: the attributes [__init__] sets. *)
Record S3CompatibleProvider : Type := {
  bucket_name : option string;
  region : option string;
  endpoint_url : option string;
  access_key : option string;
  secret_key : option string
}.

Definition S3CompatibleProvider_init (environ : Environ) : S3CompatibleProvider := {|
  bucket_name := environ "S3_BUCKET_NAME";
  region := environ "S3_REGION";
  endpoint_url := environ "S3_ENDPOINT_URL";
  access_key := environ "S3_ACCESS_KEY";
  secret_key := environ "S3_SECRET_KEY"
|}.

(** The two classes of storage provider objects. *)
Inductive CloudStorageProvider : Type :=
| BaseProvider
| S3Provider (p : S3CompatibleProvider).

(** [upload_file(file_path)]; [upload_to_s3] is
    [services.s3_toolkit.upload_to_s3], called with the file path and the
    five attributes. *)
Definition upload_file
    (upload_to_s3 : string -> option string -> option string -> option string ->
                    option string -> option string -> res string)
    (self : CloudStorageProvider) (file_path : string) : res string :=
  match self with
  | BaseProvider =>
      Err (Exn "NotImplementedError" "upload_file must be implemented by subclasses")
  | S3Provider p =>
      upload_to_s3 file_path (bucket_name p) (region p) (endpoint_url p)
        (access_key p) (secret_key p)
  end.

Definition get_storage_provider (environ : Environ) : res CloudStorageProvider :=
  match validate_env_vars environ "S3" with
  | Err e => Err e
  | Ok _ => Ok (S3Provider (S3CompatibleProvider_init environ))
  end.

(** ** Example inputs *)

Definition ex_error : exn := Exn "ClientError" "An error occurred (InternalError)".

Definition ex_env : Env := {|
  env_bucket := Some "media";
  env_endpoint := Some "https://s3.example.com";
  s3_client_error := None
|}.

(** A store that accepts every call. *)
Definition ex_store_ok : Store := {|
  respond := fun _ c =>
    match c with
    | CreateMultipartUpload _ _ _ => Ok "upload-1"
    | UploadPart _ _ _ _ _ => Ok "etag-1"
    | GeneratePresignedUrl _ _ _ _ => Ok "https://s3.example.com/media/signed"
    | _ => Ok ""
    end
|}.

(** A store whose [upload_part] of part 1 raises. *)
Definition ex_store_part_fails : Store := {|
  respond := fun h c =>
    match c with
    | UploadPart _ _ 1 _ _ => Err ex_error
    | _ => respond ex_store_ok h c
    end
|}.

(** A store whose [complete_multipart_upload] raises. *)
Definition ex_store_complete_fails : Store := {|
  respond := fun h c =>
    match c with
    | CompleteMultipartUpload _ _ _ _ => Err ex_error
    | _ => respond ex_store_ok h c
    end
|}.

(** A store whose [generate_presigned_url] raises. *)
Definition ex_store_sign_fails : Store := {|
  respond := fun h c =>
    match c with
    | GeneratePresignedUrl _ _ _ _ => Err ex_error
    | _ => respond ex_store_ok h c
    end
|}.

(** A source that sends "hi!" in two chunks, and an empty source. *)
Definition ex_http : string -> res Response := fun _ =>
  Ok {| chunks := [[Byte.x68; Byte.x69]; [Byte.x21]]; stream_error := None |}.

Definition ex_http_empty : string -> res Response := fun _ =>
  Ok {| chunks := []; stream_error := None |}.

(** A source of [chunk_size] + 1 bytes in three chunks: the first two
    together hold exactly [chunk_size] bytes, the last one byte. *)
Definition ex_big_chunk : bytes := repeat Byte.x61 (Z.to_nat chunk_size - 1).

Definition ex_http_big : string -> res Response := fun _ =>
  Ok {| chunks := [ex_big_chunk; [Byte.x62]; [Byte.x63]]; stream_error := None |}.

Definition ex_url : string := "https://files.example.com/path/My%20File.csv".

(** An environment where the five [S3_*] variables are set, [S3_REGION]
    to the empty string, and the [MINIO_*] ones are not. *)
Definition ex_environ : Environ := fun k =>
  if String.eqb k "API_KEY" then Some "key-123"
  else if String.eqb k "S3_BUCKET_NAME" then Some "media"
  else if String.eqb k "S3_REGION" then Some ""
  else if String.eqb k "S3_ENDPOINT_URL" then Some "https://s3.example.com"
  else if String.eqb k "S3_ACCESS_KEY" then Some "AKIA"
  else if String.eqb k "S3_SECRET_KEY" then Some "secret"
  else None.

(** * Proofs *)

(** ** Monad laws used below *)

Lemma app_cons_split {X} (n1 n2 h : list X) (c : X) (rest : list X) :
  n1 ++ n2 = h ++ c :: rest ->
  (exists h2, h = n1 ++ h2 /\ n2 = h2 ++ c :: rest) \/
  (exists r', n1 = h ++ c :: r' /\ rest = r' ++ n2).
Proof.
  revert h. induction n1 as [|x n1 IH]; intros h E; simpl in E.
  - left. exists h. auto.
  - destruct h as [|y h']; simpl in E; injection E as -> E.
    + right. exists n1. auto.
    + destruct (IH h' E) as [[h2 [-> ->]] | [r' [-> ->]]].
      * left. exists h2. auto.
      * right. exists r'. auto.
Qed.

Section Invariants.
Variable st : Store.

Lemma appends_ret {A} P (a : A) : appends P (ret a).
Proof. intros s. exists []. simpl. rewrite app_nil_r. auto. Qed.

Lemma appends_lift {A} P (r : res A) : appends P (lift r).
Proof. intros s. exists []. simpl. rewrite app_nil_r. auto. Qed.

Lemma appends_s3 (P : call -> Prop) c : P c -> appends P (s3 st c).
Proof. intros Hc s. exists [c]. auto. Qed.

Lemma appends_bind {A B} P (m : M A) (k : A -> M B) :
  appends P m -> (forall a, appends P (k a)) -> appends P (bind m k).
Proof.
  intros Hm Hk s. unfold bind. destruct (Hm s) as [n1 [E1 F1]].
  destruct (m s) as [[a|e] s1]; simpl in E1; subst s1.
  - destruct (Hk a (s ++ n1)) as [n2 [E2 F2]]. exists (n1 ++ n2). split.
    + rewrite E2, app_assoc. reflexivity.
    + apply Forall_app. auto.
  - exists n1. auto.
Qed.

Lemma appends_except {A} P (m : M A) : appends P m -> appends P (except_reraise m).
Proof.
  intros Hm s. destruct (Hm s) as [n [E F]]. exists n. unfold except_reraise.
  destruct (m s) as [[a|e] s1]; simpl in *; auto.
Qed.

Lemma appends_bind_lift {A B} P (r : res A) (k : A -> M B) :
  (forall a, r = Ok a -> appends P (k a)) -> appends P (bind (lift r) k).
Proof.
  intros Hk s. unfold bind, lift. destruct r as [a|e].
  - apply Hk. reflexivity.
  - exists []. rewrite app_nil_r. auto.
Qed.

Lemma appends_ext {A} P (m1 m2 : M A) :
  (forall s, m1 s = m2 s) -> appends P m2 -> appends P m1.
Proof. intros E H s. rewrite E. apply H. Qed.

Lemma appends_upload_all (P : call -> Prop) bk f u : forall bodies pn parts,
  (forall n b, In b bodies -> P (UploadPart bk f n u b)) ->
  appends P (upload_all st bk f u bodies pn parts).
Proof.
  induction bodies as [|b bodies IH]; intros pn parts HP; simpl.
  - apply appends_ret.
  - apply appends_bind.
    + apply appends_s3. apply HP. left. reflexivity.
    + intros etag. apply IH. intros n b' Hb'. apply HP. right. exact Hb'.
Qed.

Lemma propagates_ret {A} (a : A) : propagates st (ret a).
Proof.
  intros s. exists []. simpl. rewrite app_nil_r. split; auto.
  intros h c rest e E. destruct h; discriminate.
Qed.

Lemma propagates_lift {A} (r : res A) : propagates st (lift r).
Proof.
  intros s. exists []. simpl. rewrite app_nil_r. split; auto.
  intros h c rest e E. destruct h; discriminate.
Qed.

Lemma propagates_s3 c : propagates st (s3 st c).
Proof.
  intros s. exists [c]. simpl. split; auto.
  intros h c' rest e E Hr. destruct h as [|x h]; simpl in E.
  - injection E as -> ->. rewrite app_nil_r in Hr. auto.
  - injection E as _ E. destruct h; discriminate.
Qed.

Lemma propagates_bind {A B} (m : M A) (k : A -> M B) :
  propagates st m -> (forall a, propagates st (k a)) -> propagates st (bind m k).
Proof.
  intros Hm Hk s. unfold bind. destruct (Hm s) as [n1 [E1 F1]].
  destruct (m s) as [r1 s1]; simpl in E1, F1; subst s1.
  destruct r1 as [a|e].
  - destruct (Hk a (s ++ n1)) as [n2 [E2 F2]]. exists (n1 ++ n2). split.
    + rewrite E2, app_assoc. reflexivity.
    + intros h c rest e He Hr.
      destruct (app_cons_split n1 n2 h c rest He) as [[h2 [-> ->]] | [r' [-> ->]]].
      * apply (F2 h2 c rest e); auto. rewrite <- app_assoc. exact Hr.
      * destruct (F1 h c r' e eq_refl Hr) as [_ Hc]. discriminate.
  - exists n1. simpl. split; auto.
    intros h c rest e' He Hr. destruct (F1 _ _ _ _ He Hr) as [Hrest Heq].
    split; auto. injection Heq as ->. reflexivity.
Qed.

Lemma propagates_except {A} (m : M A) : propagates st m -> propagates st (except_reraise m).
Proof.
  intros Hm s. destruct (Hm s) as [n [E F]]. exists n. unfold except_reraise.
  destruct (m s) as [[a|e] s1]; simpl in *; auto.
Qed.

End Invariants.

(** ** Invariants of the loop and of the whole run *)

Section Run.
Variables (env : Env) (st : Store) (http : string -> res Response) (uuid4 : string).

Lemma appends_upload_loop (P : call -> Prop) bk f u :
  (forall n body, (chunk_size <= Z.of_nat (length body))%Z -> P (UploadPart bk f n u body)) ->
  forall it buffer pn parts, appends P (upload_loop st bk f u it buffer pn parts).
Proof.
  intros HP it. induction it as [|chunk it IH]; intros buffer pn parts; simpl.
  - apply appends_ret.
  - destruct (Z.of_nat (length (buffer ++ chunk)) >=? chunk_size)%Z eqn:E.
    + apply appends_bind; [|intros; apply IH].
      apply appends_s3. apply HP. apply Z.geb_le in E. exact E.
    + apply IH.
Qed.

Lemma propagates_upload_loop bk f u :
  forall it buffer pn parts, propagates st (upload_loop st bk f u it buffer pn parts).
Proof.
  intros it. induction it as [|chunk it IH]; intros buffer pn parts; simpl.
  - apply propagates_ret.
  - destruct (Z.of_nat (length (buffer ++ chunk)) >=? chunk_size)%Z.
    + apply propagates_bind; [apply propagates_s3|intros; apply IH].
    + apply IH.
Qed.

Lemma propagates_run url custom pub :
  propagates st (stream_upload_to_s3 env st http uuid4 url custom pub).
Proof.
  unfold stream_upload_to_s3.
  apply propagates_except.
  apply propagates_bind; [apply propagates_lift|intros _].
  apply propagates_bind; [apply propagates_lift|intros filename].
  apply propagates_bind; [apply propagates_s3|intros upload_id].
  apply propagates_bind; [apply propagates_lift|intros response].
  apply propagates_bind; [apply propagates_upload_loop|].
  intros [[buffer pn] parts]. simpl.
  apply propagates_bind; [apply propagates_lift|intros _].
  apply propagates_bind.
  { destruct (bytes_truthy buffer).
    - apply propagates_bind; [apply propagates_s3|intros; apply propagates_ret].
    - apply propagates_ret. }
  intros parts'.
  apply propagates_bind; [apply propagates_s3|intros _].
  apply propagates_bind; [destruct pub; [apply propagates_ret|apply propagates_s3]|].
  intros url'. apply propagates_ret.
Qed.

End Run.

(** ** The loop is the cut followed by the uploads *)

Lemma upload_loop_split st bk f u : forall it buffer pn parts s,
  upload_loop st bk f u it buffer pn parts s =
  bind (upload_all st bk f u (fst (split_parts it buffer)) pn parts)
       (fun x => ret (snd (split_parts it buffer), fst x, snd x)) s.
Proof.
  intros it. induction it as [|chunk it IH]; intros buffer pn parts s.
  - reflexivity.
  - simpl. destruct (Z.of_nat (length (buffer ++ chunk)) >=? chunk_size)%Z.
    + destruct (split_parts it []) as [ps rest] eqn:Es. simpl.
      unfold s3. cbv [bind]. simpl.
      destruct (respond st s _); [|reflexivity].
      rewrite IH, Es. reflexivity.
    + apply IH.
Qed.

Lemma upload_calls_app bk f u : forall b1 b2 pn,
  upload_calls bk f u (b1 ++ b2) pn =
  upload_calls bk f u b1 pn ++ upload_calls bk f u b2 (pn + Z.of_nat (length b1))%Z.
Proof.
  induction b1 as [|b b1 IH]; intros b2 pn; simpl.
  - rewrite Z.add_0_r. reflexivity.
  - rewrite IH, Zpos_P_of_succ_nat.
    replace (pn + Z.succ (Z.of_nat (length b1)))%Z
      with (pn + 1 + Z.of_nat (length b1))%Z by lia.
    reflexivity.
Qed.

Lemma numbered_app : forall t1 t2 n,
  numbered n (t1 ++ t2) = numbered n t1 ++ numbered (n + Z.of_nat (length t1))%Z t2.
Proof.
  induction t1 as [|t t1 IH]; intros t2 n; simpl.
  - rewrite Z.add_0_r. reflexivity.
  - rewrite IH, Zpos_P_of_succ_nat.
    replace (n + Z.succ (Z.of_nat (length t1)))%Z
      with (n + 1 + Z.of_nat (length t1))%Z by lia.
    reflexivity.
Qed.

Lemma responses_app st : forall c1 c2 h,
  responses st h (c1 ++ c2) = responses st h c1 ++ responses st (h ++ c1) c2.
Proof.
  induction c1 as [|c c1 IH]; intros c2 h; simpl.
  - rewrite app_nil_r. reflexivity.
  - rewrite IH, <- app_assoc. reflexivity.
Qed.

Lemma responses_length st : forall cs h, length (responses st h cs) = length cs.
Proof. induction cs; simpl; auto. Qed.

Lemma upload_calls_length bk f u : forall bodies pn,
  length (upload_calls bk f u bodies pn) = length bodies.
Proof. induction bodies; simpl; auto. Qed.

Lemma upload_all_ok st bk f u : forall bodies pn parts s pn' parts' s',
  upload_all st bk f u bodies pn parts s = (Ok (pn', parts'), s') ->
  exists tags,
    s' = s ++ upload_calls bk f u bodies pn /\
    responses st s (upload_calls bk f u bodies pn) = map Ok tags /\
    pn' = (pn + Z.of_nat (length bodies))%Z /\
    parts' = parts ++ numbered pn tags.
Proof.
  induction bodies as [|b bodies IH]; intros pn parts s pn' parts' s' H; simpl in H.
  - injection H as -> -> ->. exists []. simpl. rewrite !app_nil_r, Z.add_0_r. auto.
  - unfold bind, s3 in H. destruct (respond st s _) as [tag|e] eqn:R; [|discriminate].
    apply IH in H as [tags [-> [Hr [-> ->]]]].
    exists (tag :: tags). simpl. rewrite <- !app_assoc. simpl.
    rewrite R, Hr. repeat split; auto. lia.
Qed.

(** ** Successful runs *)

(** A successful run: its trace and the answers the store gave. *)
Lemma run_success env st http uuid4 url custom pub r tr :
  stream_upload_to_s3 env st http uuid4 url custom pub [] = (Ok r, tr) ->
  exists f u resp tags tc,
    let bk := env_bucket env in
    let c0 := CreateMultipartUpload bk f (if pub then "public-read" else "private") in
    let ucs := upload_calls bk f u (planned_bodies (chunks resp)) 1 in
    let cc := CompleteMultipartUpload bk f u (numbered 1 tags) in
    choose_filename custom url uuid4 = Ok f /\
    respond st [] c0 = Ok u /\
    http url = Ok resp /\ stream_error resp = None /\
    responses st [c0] ucs = map Ok tags /\
    respond st (c0 :: ucs) cc = Ok tc /\
    r_filename r = f /\ r_bucket r = bk /\ r_public r = pub /\
    (if pub then tr = c0 :: ucs ++ [cc] /\
        r_file_url r = (fstr (env_endpoint env) ++ "/" ++ fstr bk ++ "/" ++ quote f)%string
     else let cp := GeneratePresignedUrl "get_object" bk f 3600 in
        tr = c0 :: ucs ++ [cc; cp] /\ respond st (c0 :: ucs ++ [cc]) cp = Ok (r_file_url r)).
Proof.
  intros H. unfold stream_upload_to_s3, except_reraise in H.
  cbv [bind lift s3 ret] in H.
  destruct (get_s3_client env) as [[]|e]; [|discriminate].
  destruct (choose_filename custom url uuid4) as [f|e] eqn:Ef; [|discriminate].
  cbv beta iota zeta delta [fst snd] in H; rewrite ?app_nil_l in H.
  destruct (respond st [] _) as [u|e] eqn:Eu; [|discriminate].
  destruct (http url) as [resp|e] eqn:Eh; [|discriminate].
  rewrite upload_loop_split in H. cbv [bind ret] in H.
  destruct (split_parts (chunks resp) []) as [ps rest] eqn:Es. cbv beta iota zeta delta [fst snd] in H; rewrite ?app_nil_l in H.
  destruct (upload_all _ _ _ _ _ _ _ _) as [[[pn parts]|e] s1] eqn:Eall; [|discriminate].
  apply upload_all_ok in Eall as [tags [-> [Hr [-> ->]]]].
  assert (Hlen : length tags = length ps).
  { rewrite <- (length_map (@Ok string)), <- Hr, responses_length, upload_calls_length. reflexivity. }
  destruct (iter_end resp) as [[]|e] eqn:Ei; [|discriminate].
  assert (Hse : stream_error resp = None).
  { unfold iter_end in Ei. destruct (stream_error resp); congruence. }
  cbv beta iota zeta delta [fst snd] in H; rewrite ?app_nil_l in H.
  destruct (bytes_truthy rest) eqn:Eb.
  - destruct (respond st _ (UploadPart _ _ _ _ rest)) as [t|e] eqn:Et; [|discriminate].
    destruct (respond st _ (CompleteMultipartUpload _ _ _ _)) as [tc|e] eqn:Ec; [|discriminate].
    set (c0 := CreateMultipartUpload (env_bucket env) f (if pub then "public-read" else "private")) in *.
    assert (HU : upload_calls (env_bucket env) f u (planned_bodies (chunks resp)) 1 =
                 upload_calls (env_bucket env) f u ps 1 ++
                 [UploadPart (env_bucket env) f (1 + Z.of_nat (length ps)) u rest]).
    { unfold planned_bodies. rewrite Es, Eb, upload_calls_app. reflexivity. }
    assert (HN : numbered 1 (tags ++ [t]) = numbered 1 tags ++ [((1 + Z.of_nat (length ps))%Z, t)]).
    { rewrite numbered_app, Hlen. reflexivity. }
    assert (HR : responses st [c0] (upload_calls (env_bucket env) f u (planned_bodies (chunks resp)) 1)
                 = map Ok (tags ++ [t])).
    { rewrite HU, responses_app, Hr, map_app. cbn [responses]. rewrite Et. reflexivity. }
    exists f, u, resp, (tags ++ [t]), tc. cbv zeta. fold c0. rewrite HR, HN, HU.
    rewrite <- app_assoc in Ec.
    destruct pub.
    + injection H as <- <-. repeat split; try reflexivity; try assumption. all: rewrite <- ?app_assoc; reflexivity.
    + destruct (respond st _ (GeneratePresignedUrl _ _ _ _)) as [v|e] eqn:Ev; [|discriminate].
      injection H as <- <-. repeat split; try reflexivity; try assumption. all: rewrite <- ?app_assoc; reflexivity.
  - destruct (respond st _ (CompleteMultipartUpload _ _ _ _)) as [tc|e] eqn:Ec; [|discriminate].
    set (c0 := CreateMultipartUpload (env_bucket env) f (if pub then "public-read" else "private")) in *.
    assert (HU : upload_calls (env_bucket env) f u (planned_bodies (chunks resp)) 1 =
                 upload_calls (env_bucket env) f u ps 1).
    { unfold planned_bodies. rewrite Es, Eb, app_nil_r. reflexivity. }
    exists f, u, resp, tags, tc. cbv zeta. fold c0. rewrite HU.
    destruct pub.
    + injection H as <- <-. repeat split; try reflexivity; try assumption. all: rewrite <- ?app_assoc; reflexivity.
    + destruct (respond st _ (GeneratePresignedUrl _ _ _ _)) as [v|e] eqn:Ev; [|discriminate].
      injection H as <- <-. repeat split; try reflexivity; try assumption. all: rewrite <- ?app_assoc; reflexivity.
Qed.

Lemma split_parts_concat : forall it buffer,
  concat (fst (split_parts it buffer)) ++ snd (split_parts it buffer) = buffer ++ concat it.
Proof.
  induction it as [|chunk it IH]; intros buffer; simpl.
  - rewrite app_nil_r. reflexivity.
  - destruct (Z.of_nat (length (buffer ++ chunk)) >=? chunk_size)%Z.
    + specialize (IH []). destruct (split_parts it []) as [ps r]. simpl in *.
      rewrite <- app_assoc, IH, app_assoc. reflexivity.
    + rewrite IH, app_assoc. reflexivity.
Qed.

Lemma split_parts_big : forall it buffer,
  Forall (fun b => (chunk_size <= Z.of_nat (length b))%Z) (fst (split_parts it buffer)).
Proof.
  induction it as [|chunk it IH]; intros buffer; simpl.
  - constructor.
  - destruct (Z.of_nat (length (buffer ++ chunk)) >=? chunk_size)%Z eqn:E.
    + specialize (IH []). destruct (split_parts it []) as [ps r]. simpl in *.
      constructor; auto. apply Z.geb_le. exact E.
    + apply IH.
Qed.

Lemma split_parts_feed : forall it buffer,
  split_parts it buffer = Accumulator.feed chunk_size buffer it.
Proof.
  induction it as [|chunk it IH]; intros buffer; simpl.
  - reflexivity.
  - unfold Accumulator.append. rewrite Z.geb_leb.
    destruct (chunk_size <=? Z.of_nat (length (buffer ++ chunk)))%Z.
    + rewrite IH. destruct (Accumulator.feed chunk_size [] it). reflexivity.
    + rewrite IH. destruct (Accumulator.feed chunk_size (buffer ++ chunk) it). reflexivity.
Qed.

Lemma planned_bodies_parts : forall it,
  planned_bodies it = Accumulator.parts chunk_size it.
Proof.
  intros it. unfold planned_bodies, Accumulator.parts. rewrite split_parts_feed.
  destruct (Accumulator.feed chunk_size [] it) as [ps [|b r]]; reflexivity.
Qed.

Lemma planned_bodies_concat : forall it, concat (planned_bodies it) = concat it.
Proof.
  intros it. unfold planned_bodies. pose proof (split_parts_concat it []) as E.
  destruct (split_parts it []) as [ps r]. simpl in E.
  destruct r as [|b r]; simpl.
  - rewrite app_nil_r in *. exact E.
  - rewrite concat_app. simpl. rewrite app_nil_r. exact E.
Qed.

Lemma planned_bodies_big : forall it,
  Forall (fun b => (chunk_size <= Z.of_nat (length b))%Z) (removelast (planned_bodies it)).
Proof.
  intros it. unfold planned_bodies. pose proof (split_parts_big it []) as F.
  destruct (split_parts it []) as [ps r]. simpl in F.
  destruct (bytes_truthy r).
  - rewrite removelast_app by discriminate. simpl. rewrite app_nil_r. exact F.
  - rewrite app_nil_r. destruct ps as [|p ps] using rev_ind; [constructor|].
    rewrite removelast_app by discriminate. simpl. rewrite app_nil_r.
    apply Forall_app in F as [F _]. exact F.
Qed.

Lemma upload_bodies_calls bk f u : forall bodies pn tail,
  upload_bodies (upload_calls bk f u bodies pn ++ tail) = bodies ++ upload_bodies tail.
Proof. induction bodies as [|b bodies IH]; intros pn tail; simpl; auto. rewrite IH. reflexivity. Qed.

Lemma in_upload_calls bk f u : forall bodies pn c,
  In c (upload_calls bk f u bodies pn) -> exists n b, c = UploadPart bk f n u b.
Proof.
  induction bodies as [|b bodies IH]; intros pn c Hc; simpl in Hc; [contradiction|].
  destruct Hc as [<-|Hc]; eauto.
Qed.

Lemma part_responses_calls st bk f u : forall bodies pn h tags,
  responses st h (upload_calls bk f u bodies pn) = map Ok tags ->
  part_responses_from st h (upload_calls bk f u bodies pn) =
  map (fun p => (fst p, Ok (snd p))) (numbered pn tags).
Proof.
  induction bodies as [|b bodies IH]; intros pn h tags E; simpl in *.
  - destruct tags; [reflexivity|discriminate].
  - destruct tags as [|t tags]; [discriminate|]. simpl in E. injection E as E1 E2.
    rewrite E1. simpl. f_equal. apply IH. exact E2.
Qed.

Lemma part_responses_from_app st : forall l1 l2 h,
  part_responses_from st h (l1 ++ l2) =
  part_responses_from st h l1 ++ part_responses_from st (h ++ l1) l2.
Proof.
  induction l1 as [|c l1 IH]; intros l2 h; simpl.
  - rewrite app_nil_r. reflexivity.
  - rewrite IH, <- !app_assoc. reflexivity.
Qed.

Lemma numbered_fst : forall tags n,
  map fst (numbered (Z.of_nat n) tags) = map Z.of_nat (seq n (length tags)).
Proof.
  induction tags as [|t tags IH]; intros n; simpl; auto.
  f_equal. rewrite <- IH. f_equal. f_equal. lia.
Qed.

Lemma numbered_length : forall tags n, length (numbered n tags) = length tags.
Proof. induction tags; simpl; auto. Qed.

Lemma planned_bodies_nonempty : forall it b, In b (planned_bodies it) -> b <> [].
Proof.
  intros it b Hb. unfold planned_bodies in Hb. pose proof (split_parts_big it []) as F.
  destruct (split_parts it []) as [ps r]. simpl in F.
  apply in_app_or in Hb as [Hb|Hb].
  - rewrite Forall_forall in F. specialize (F b Hb). intros ->.
    simpl in F. unfold chunk_size in F. lia.
  - destruct (bytes_truthy r) eqn:Er; [|contradiction].
    destruct Hb as [<-|[]]. intros ->. discriminate.
Qed.

Lemma split_parts_in_planned : forall it b,
  In b (fst (split_parts it [])) -> In b (planned_bodies it).
Proof.
  intros it b Hb. unfold planned_bodies. destruct (split_parts it []) as [ps r].
  apply in_or_app. left. exact Hb.
Qed.

(** Every call of a run satisfies [P], given that [P] holds of the calls the
    program can make with the filename it chose and the bodies it cut. *)
Lemma appends_run (P : call -> Prop) (env : Env) (st : Store)
    (http : string -> res Response) (uuid4 url : string) (custom : option string) (pub : bool) :
  (forall f, choose_filename custom url uuid4 = Ok f ->
     P (CreateMultipartUpload (env_bucket env) f (if pub then "public-read" else "private"))) ->
  (forall f resp n u body, http url = Ok resp -> In body (planned_bodies (chunks resp)) ->
     P (UploadPart (env_bucket env) f n u body)) ->
  (forall b k u ps, P (CompleteMultipartUpload b k u ps)) ->
  (forall m b k x, P (GeneratePresignedUrl m b k x)) ->
  appends P (stream_upload_to_s3 env st http uuid4 url custom pub).
Proof.
  intros HC HU HM HG. unfold stream_upload_to_s3.
  apply appends_except.
  apply appends_bind_lift. intros _ _.
  apply appends_bind_lift. intros f Hf.
  apply appends_bind; [apply appends_s3, HC, Hf|intros upload_id].
  apply appends_bind_lift. intros response Hresp.
  match goal with |- appends P (bind _ ?K) =>
    apply (appends_ext P _
      (bind (upload_all st (env_bucket env) f upload_id
               (fst (split_parts (chunks response) [])) 1 [])
            (fun x => K (snd (split_parts (chunks response) []), fst x, snd x)))) end.
  { intros s. unfold bind at 1 2. rewrite upload_loop_split. unfold bind, ret.
    destruct (upload_all _ _ _ _ _ _ _ s) as [[a|e] s']; reflexivity. }
  apply appends_bind.
  { apply appends_upload_all. intros n b Hb. apply (HU f response); auto.
    apply split_parts_in_planned. exact Hb. }
  intros [pn parts]. destruct (split_parts (chunks response) []) as [ps r] eqn:Es.
  cbv beta iota zeta delta [fst snd].
  apply appends_bind; [apply appends_lift|intros _].
  apply appends_bind.
  { destruct (bytes_truthy r) eqn:Eb.
    - apply appends_bind; [|intros; apply appends_ret].
      apply appends_s3. apply (HU f response); auto.
      unfold planned_bodies. rewrite Es, Eb. apply in_or_app. right. left. reflexivity.
    - apply appends_ret. }
  intros parts'.
  apply appends_bind; [apply appends_s3, HM|intros _].
  apply appends_bind; [destruct pub; [apply appends_ret|apply appends_s3, HG]|].
  intros url'. apply appends_ret.
Qed.

Lemma run_fails_last env st http uuid4 url custom pub r tr :
  stream_upload_to_s3 env st http uuid4 url custom pub [] = (r, tr) ->
  fails_last st [] tr r.
Proof.
  intros H. destruct (propagates_run env st http uuid4 url custom pub []) as [n [E F]].
  rewrite H in E, F. simpl in E, F. subst tr. exact F.
Qed.

Lemma run_appends (P : call -> Prop) env st http uuid4 url custom pub r tr :
  appends P (stream_upload_to_s3 env st http uuid4 url custom pub) ->
  stream_upload_to_s3 env st http uuid4 url custom pub [] = (r, tr) ->
  Forall P tr.
Proof.
  intros HA H. destruct (HA []) as [n [E F]]. rewrite H in E. simpl in E. subst tr. exact F.
Qed.

Lemma run_success_bodies env st http uuid4 url custom pub r tr resp :
  stream_upload_to_s3 env st http uuid4 url custom pub [] = (Ok r, tr) ->
  http url = Ok resp ->
  upload_bodies tr = planned_bodies (chunks resp).
Proof.
  intros H Hh. apply run_success in H. cbv zeta in H.
  destruct H as (f & u & resp' & tags & tc & _ & _ & Hh' & _ & _ & _ & _ & _ & _ & Htr).
  rewrite Hh in Hh'. injection Hh' as <-.
  destruct pub; destruct Htr as [-> _]; cbn [upload_bodies];
    rewrite upload_bodies_calls; cbn [upload_bodies]; apply app_nil_r.
Qed.

Lemma Forall_upload_bodies (Q : bytes -> Prop) : forall tr,
  Forall (fun c => match c with UploadPart _ _ _ _ b => Q b | _ => True end) tr ->
  Forall Q (upload_bodies tr).
Proof.
  induction tr as [|c tr IH]; intros F; simpl; [constructor|].
  inversion F as [|x y Hc Ftr]; subst. destruct c; auto.
Qed.

Lemma planned_bodies_empty : forall it, concat it = [] -> planned_bodies it = [].
Proof.
  intros it E. pose proof (planned_bodies_concat it) as C. rewrite E in C.
  pose proof (planned_bodies_nonempty it) as N.
  destruct (planned_bodies it) as [|b bs]; [reflexivity|].
  exfalso. apply (N b (or_introl eq_refl)). simpl in C.
  destruct b; [reflexivity|discriminate].
Qed.

Lemma no_presign_last tr h m b k x :
  Forall (fun c => is_presign c = false) tr -> tr <> h ++ [GeneratePresignedUrl m b k x].
Proof.
  intros F ->. rewrite Forall_forall in F.
  specialize (F (GeneratePresignedUrl m b k x)). simpl in F.
  discriminate F. apply in_or_app. right. left. reflexivity.
Qed.

Ltac npt := repeat first [ assumption | apply Forall_nil
  | apply Forall_app; split | apply Forall_cons; [reflexivity|] ].

Ltac kill := match goal with
  | H : _ = (_, ?h ++ [?p]), NP : forall tr, _ -> tr <> ?h ++ [?p] |- _ =>
      apply (f_equal snd) in H; cbv beta iota zeta delta [snd] in H;
      exfalso; refine (NP _ _ H); solve [npt]
  end.

(** In every run, a [generate_presigned_url] call comes right after a
    [complete_multipart_upload] call the store accepted. *)
Lemma run_presign_after_complete env st http uuid4 url custom pub r h m b k x :
  stream_upload_to_s3 env st http uuid4 url custom pub [] = (r, h ++ [GeneratePresignedUrl m b k x]) ->
  exists h' b' k' u ps t, h = h' ++ [CompleteMultipartUpload b' k' u ps] /\
    respond st h' (CompleteMultipartUpload b' k' u ps) = Ok t.
Proof.
  intros H. set (p := GeneratePresignedUrl m b k x) in *.
  assert (NP : forall tr, Forall (fun c => is_presign c = false) tr -> tr <> h ++ [p])
    by (intros; apply no_presign_last; auto).
  unfold stream_upload_to_s3, except_reraise in H. cbv [bind lift s3 ret] in H.
  destruct (get_s3_client env) as [[]|e];
    [|cbv beta iota zeta in H; apply (f_equal snd) in H; cbn [snd] in H; exfalso; apply (NP []); auto].
  destruct (choose_filename custom url uuid4) as [f|e];
    [|cbv beta iota zeta in H; apply (f_equal snd) in H; cbn [snd] in H; exfalso; apply (NP []); auto].
  cbv beta iota zeta in H.
  set (c0 := CreateMultipartUpload _ _ _) in H.
  destruct (respond st [] c0) as [u|e];
    [|cbv beta iota zeta in H; apply (f_equal snd) in H; cbn [snd] in H; exfalso; apply (NP [c0]); auto].
  destruct (http url) as [resp|e];
    [|cbv beta iota zeta in H; apply (f_equal snd) in H; cbn [snd] in H; exfalso; apply (NP [c0]); auto].
  change ([] ++ [c0]) with [c0] in H.
  destruct (appends_upload_loop st (fun c => is_presign c = false) (env_bucket env) f u
              ltac:(reflexivity) (chunks resp) [] 1 [] [c0]) as [new [En Fn]].
  destruct (upload_loop st _ _ _ _ _ _ _ [c0]) as [[[[buffer pn] parts]|e] s1];
    simpl in En; subst s1;
    [|cbv beta iota zeta in H; apply (f_equal snd) in H; cbn [snd] in H; exfalso; refine (NP _ _ H); constructor; [reflexivity|exact Fn]].
  assert (F0 : Forall (fun c => is_presign c = false) (c0 :: new)) by (constructor; auto).
  cbv beta iota zeta in H.
  destruct (iter_end resp) as [[]|e];
    [|apply (f_equal snd) in H; cbn [snd] in H; exfalso; exact (NP _ F0 H)].
  destruct (bytes_truthy buffer); [destruct (respond st (c0 :: new) _) as [t|e]|];
    cbv beta iota zeta in H; try kill.
  all: destruct (respond st _ (CompleteMultipartUpload _ _ _ _)) as [tc|e] eqn:Ec;
    cbv beta iota zeta in H; try kill.
  all: destruct pub; cbv beta iota zeta in H; try kill.
  all: destruct (respond st _ (GeneratePresignedUrl _ _ _ _)); cbv beta iota zeta in H;
    apply (f_equal snd) in H; cbv beta iota zeta delta [snd] in H;
    apply app_inj_tail in H as [<- _]; do 6 eexists; split; first [reflexivity|exact Ec].
Qed.

Lemma filter_none {X} (g : X -> bool) : forall l,
  Forall (fun c => g c = false) l -> filter g l = [].
Proof. induction l as [|c l IH]; intros F; simpl; auto. inversion F; subst. rewrite H1. auto. Qed.

(** ** Filenames *)

Lemma rfind_none_find c s : str_rfind c s = None -> str_find c s = None.
Proof.
  induction s as [|d r IH]; simpl; auto.
  destruct (str_rfind c r); [discriminate|].
  destruct (Ascii.eqb c d); [discriminate|]. intros _. rewrite IH; reflexivity.
Qed.

Lemma substring_full s : substring 0 (String.length s) s = s.
Proof. induction s as [|d r IH]; simpl; congruence. Qed.

(** [basename p] is the part of [p] after its last '/': [p] splits into a
    prefix that is empty or ends with '/', and a last part with no '/'. *)
Lemma basename_split p :
  exists pre, p = (pre ++ basename p)%string /\ str_in "/"%char (basename p) = false /\
    match str_rfind "/"%char p with
    | None => pre = ""%string
    | Some _ => exists p', pre = (p' ++ "/")%string
    end.
Proof.
  induction p as [|d r IH].
  - exists ""%string. split; [reflexivity|split; reflexivity].
  - destruct IH as (pre & E & N & Mt).
    unfold basename in *. cbn [str_rfind].
    destruct (str_rfind "/"%char r) as [i|] eqn:R.
    + assert (B : str_drop (S (S i)) (String d r) = str_drop (S i) r) by reflexivity.
      rewrite B. exists (String d pre). split; [|split; [exact N|]].
      * cbn [append]. rewrite <- E. reflexivity.
      * destruct Mt as [p' ->]. exists (String d p'). reflexivity.
    + destruct (Ascii.eqb "/"%char d) eqn:D.
      * apply Ascii.eqb_eq in D. subst d.
        assert (B : str_drop 1 (String "/"%char r) = r).
        { unfold str_drop. cbn [String.length substring]. replace (S (String.length r) - 1) with (String.length r) by lia. apply substring_full. }
        rewrite B. exists "/"%string. split; [reflexivity|split; [|exists ""%string; reflexivity]].
        unfold str_in. rewrite (rfind_none_find _ _ R). reflexivity.
      * exists ""%string. split; [reflexivity|split; [|reflexivity]].
        unfold str_in. cbn [str_find]. rewrite D, (rfind_none_find _ _ R). reflexivity.
Qed.

Lemma str_truthy_nonempty s : str_truthy s = true -> s <> ""%string.
Proof. intros T ->. discriminate T. Qed.

Lemma get_filename_nonempty url uuid4 k :
  uuid4 <> ""%string -> get_filename_from_url url uuid4 = Ok k -> k <> ""%string.
Proof.
  unfold get_filename_from_url. intros U H. destruct (urlparse_path url); [|discriminate].
  injection H as <-. destruct (str_truthy _) eqn:T; [apply str_truthy_nonempty; exact T|exact U].
Qed.

(** The key of the [create_multipart_upload] call of a run is the filename
    [choose_filename] gave. *)
Lemma run_create_key env st http uuid4 url custom pub r tr b k a :
  stream_upload_to_s3 env st http uuid4 url custom pub [] = (r, tr) ->
  In (CreateMultipartUpload b k a) tr ->
  choose_filename custom url uuid4 = Ok k.
Proof.
  intros H Hin.
  set (P := fun c => match c with
                     | CreateMultipartUpload _ k' _ => choose_filename custom url uuid4 = Ok k'
                     | _ => True end).
  assert (F : Forall P tr).
  { eapply run_appends; [|exact H]. apply appends_run; simpl; auto. }
  rewrite Forall_forall in F. exact (F _ Hin).
Qed.

(** ** A run over a source of more than [chunk_size] bytes *)

(** With the first two chunks holding exactly [chunk_size] bytes, the loop
    uploads them as part 1 as soon as the second chunk is appended, and the
    last byte goes up as part 2 after the loop.  The bytes of the first
    chunk are left abstract: only its length matters to the loop. *)
Lemma run_big_source big :
  length big = (Z.to_nat chunk_size - 1)%nat ->
  stream_upload_to_s3 ex_env ex_store_ok
    (fun _ => Ok {| chunks := [big; [Byte.x62]; [Byte.x63]]; stream_error := None |})
    "u" ex_url None true [] =
  (Ok {| r_file_url := "https://s3.example.com/media/My%20File.csv";
         r_filename := "My File.csv"; r_bucket := Some "media"; r_public := true |},
   [CreateMultipartUpload (Some "media") "My File.csv" "public-read";
    UploadPart (Some "media") "My File.csv" 1 "upload-1" (big ++ [Byte.x62]);
    UploadPart (Some "media") "My File.csv" 2 "upload-1" [Byte.x63];
    CompleteMultipartUpload (Some "media") "My File.csv" "upload-1"
      [(1%Z, "etag-1"); (2%Z, "etag-1")]]).
Proof.
  intros H.
  assert (T0 : (Z.of_nat (length ([] ++ big)) >=? chunk_size)%Z = false).
  { rewrite Z.geb_leb, Z.leb_gt. cbn [app]. rewrite H. unfold chunk_size. lia. }
  assert (T1 : (Z.of_nat (length (([] ++ big) ++ [Byte.x62])) >=? chunk_size)%Z = true).
  { rewrite Z.geb_leb, Z.leb_le, length_app. cbn [app]. rewrite H.
    cbn [length]. unfold chunk_size. lia. }
  assert (T2 : (Z.of_nat (length ([] ++ [Byte.x63])) >=? chunk_size)%Z = false)
    by reflexivity.
  cbv -[length app Z.of_nat Z.geb chunk_size]. rewrite T0.
  cbv -[length app Z.of_nat Z.geb chunk_size]. rewrite T1, T2.
  cbv -[length app Z.of_nat Z.geb chunk_size].
  reflexivity.
Qed.

(** * Claims *)

(** C2: for every source, concatenating the bodies of the uploaded parts in
    order gives back the bytes of the source, whatever its chunk sizes. *)
Theorem upload_roundtrip env st http uuid4 url custom pub r tr resp :
  stream_upload_to_s3 env st http uuid4 url custom pub [] = (Ok r, tr) ->
  http url = Ok resp ->
  concat (upload_bodies tr) = concat (chunks resp).
Proof.
  intros H Hh. apply run_success in H. cbv zeta in H.
  destruct H as (f & u & resp' & tags & tc & _ & _ & Hh' & _ & _ & _ & _ & _ & _ & Htr).
  rewrite Hh in Hh'. injection Hh' as <-.
  destruct pub; destruct Htr as [-> _]; cbn [upload_bodies];
    rewrite upload_bodies_calls; cbn [upload_bodies]; rewrite app_nil_r;
    apply planned_bodies_concat.
Qed.

Lemma upload_roundtrip_witness :
  stream_upload_to_s3 ex_env ex_store_ok ex_http "u" ex_url None false [] =
    (Ok {| r_file_url := "https://s3.example.com/media/signed";
           r_filename := "My File.csv"; r_bucket := Some "media"; r_public := false |},
     snd (stream_upload_to_s3 ex_env ex_store_ok ex_http "u" ex_url None false [])) /\
  ex_http ex_url = Ok {| chunks := [[Byte.x68; Byte.x69]; [Byte.x21]]; stream_error := None |} /\
  concat (upload_bodies (snd (stream_upload_to_s3 ex_env ex_store_ok ex_http "u" ex_url None false [])))
  = [Byte.x68; Byte.x69; Byte.x21].
Proof.
  split; [vm_compute; reflexivity|]. split; [reflexivity|].
  apply (upload_roundtrip ex_env ex_store_ok ex_http "u" ex_url None false
           {| r_file_url := "https://s3.example.com/media/signed";
              r_filename := "My File.csv"; r_bucket := Some "media"; r_public := false |}
           (snd (stream_upload_to_s3 ex_env ex_store_ok ex_http "u" ex_url None false []))
           {| chunks := [[Byte.x68; Byte.x69]; [Byte.x21]]; stream_error := None |});
    vm_compute; reflexivity.
Defined.

(** C3: the manifest sent to [complete_multipart_upload] numbers the parts
    1, 2, ..., K and carries, for each part, the ETag the store answered to
    its upload; K is the number of [upload_part] calls. *)
Theorem manifest_numbers env st http uuid4 url custom pub r tr :
  stream_upload_to_s3 env st http uuid4 url custom pub [] = (Ok r, tr) ->
  exists bk key u parts,
    In (CompleteMultipartUpload bk key u parts) tr /\
    map fst parts = map Z.of_nat (seq 1 (length parts)) /\
    part_responses st tr = map (fun p => (fst p, Ok (snd p))) parts.
Proof.
  intros H. apply run_success in H. cbv zeta in H.
  destruct H as (f & u & resp & tags & tc & _ & _ & _ & _ & Hr & _ & _ & _ & _ & Htr).
  exists (env_bucket env), f, u, (numbered 1 tags).
  set (c0 := CreateMultipartUpload (env_bucket env) f (if pub then "public-read" else "private")) in *.
  set (ucs := upload_calls (env_bucket env) f u (planned_bodies (chunks resp)) 1) in *.
  assert (Hp : forall tail, part_responses_from st [] (c0 :: ucs ++ tail) =
                 map (fun p => (fst p, Ok (snd p))) (numbered 1 tags) ++
                 part_responses_from st (c0 :: ucs) tail).
  { intros tail. cbn [part_responses_from app]. subst c0.
    rewrite part_responses_from_app. unfold ucs. rewrite (part_responses_calls _ _ _ _ _ _ _ _ Hr).
    reflexivity. }
  split; [|split].
  - destruct pub; destruct Htr as [-> _]; right; apply in_or_app; right; left; reflexivity.
  - rewrite numbered_length. apply (numbered_fst tags 1).
  - unfold part_responses.
    destruct pub; destruct Htr as [-> _]; rewrite Hp; cbn [part_responses_from];
      rewrite app_nil_r; reflexivity.
Qed.

(** C6: the loop uploads the buffer as soon as, after appending a chunk, it
    holds at least [chunk_size] = 5 MiB bytes, and then empties it: the
    uploaded bodies are the parts of the design's Part Accumulator with
    threshold 5 MiB, and every uploaded part but the last has 5 MiB or more. *)
Theorem part_accumulation env st http uuid4 url custom pub r tr resp :
  stream_upload_to_s3 env st http uuid4 url custom pub [] = (Ok r, tr) ->
  http url = Ok resp ->
  chunk_size = (5 * 1024 * 1024)%Z /\
  upload_bodies tr = Accumulator.parts chunk_size (chunks resp) /\
  Forall (fun b => (chunk_size <= Z.of_nat (length b))%Z) (removelast (upload_bodies tr)).
Proof.
  intros H Hh. rewrite (run_success_bodies _ _ _ _ _ _ _ _ _ _ H Hh).
  split; [reflexivity|split].
  - apply planned_bodies_parts.
  - apply planned_bodies_big.
Qed.

Lemma part_accumulation_witness :
  stream_upload_to_s3 ex_env ex_store_ok ex_http_big "u" ex_url None true [] =
    (Ok {| r_file_url := "https://s3.example.com/media/My%20File.csv";
           r_filename := "My File.csv"; r_bucket := Some "media"; r_public := true |},
     [CreateMultipartUpload (Some "media") "My File.csv" "public-read";
      UploadPart (Some "media") "My File.csv" 1 "upload-1" (ex_big_chunk ++ [Byte.x62]);
      UploadPart (Some "media") "My File.csv" 2 "upload-1" [Byte.x63];
      CompleteMultipartUpload (Some "media") "My File.csv" "upload-1"
        [(1%Z, "etag-1"); (2%Z, "etag-1")]]) /\
  upload_bodies
    [CreateMultipartUpload (Some "media") "My File.csv" "public-read";
     UploadPart (Some "media") "My File.csv" 1 "upload-1" (ex_big_chunk ++ [Byte.x62]);
     UploadPart (Some "media") "My File.csv" 2 "upload-1" [Byte.x63];
     CompleteMultipartUpload (Some "media") "My File.csv" "upload-1"
       [(1%Z, "etag-1"); (2%Z, "etag-1")]] = [ex_big_chunk ++ [Byte.x62]; [Byte.x63]] /\
  (chunk_size = (5 * 1024 * 1024)%Z /\
   [ex_big_chunk ++ [Byte.x62]; [Byte.x63]] =
     Accumulator.parts chunk_size [ex_big_chunk; [Byte.x62]; [Byte.x63]] /\
   Forall (fun b => (chunk_size <= Z.of_nat (length b))%Z)
     (removelast [ex_big_chunk ++ [Byte.x62]; [Byte.x63]])).
Proof.
  assert (Hrun := run_big_source ex_big_chunk (repeat_length _ _)).
  split; [exact Hrun|]. split; [reflexivity|].
  exact (part_accumulation ex_env ex_store_ok ex_http_big "u" ex_url None true _ _
           {| chunks := [ex_big_chunk; [Byte.x62]; [Byte.x63]]; stream_error := None |}
           Hrun eq_refl).
Defined.

(** C7: no run uploads an empty part, and a source of zero bytes leads to
    no [upload_part] call at all. *)
Theorem no_empty_part env st http uuid4 url custom pub r tr :
  stream_upload_to_s3 env st http uuid4 url custom pub [] = (r, tr) ->
  Forall (fun b => b <> []) (upload_bodies tr) /\
  (forall resp, http url = Ok resp -> concat (chunks resp) = [] -> upload_bodies tr = []).
Proof.
  intros H. split.
  - apply Forall_upload_bodies.
    eapply run_appends; [|exact H]. apply appends_run; auto.
    intros f resp n u body _ Hb. eapply planned_bodies_nonempty. exact Hb.
  - intros resp Hh E.
    assert (F : Forall (fun b => In b (planned_bodies (chunks resp))) (upload_bodies tr)).
    { apply Forall_upload_bodies. eapply run_appends; [|exact H]. apply appends_run; auto.
      intros f resp' n u body Hh' Hb. rewrite Hh in Hh'. injection Hh' as <-. exact Hb. }
    rewrite planned_bodies_empty in F by exact E.
    destruct (upload_bodies tr) as [|b bs]; [reflexivity|].
    inversion F as [|x y Hb _]. contradiction.
Qed.

Lemma no_empty_part_witness :
  stream_upload_to_s3 ex_env ex_store_ok ex_http_empty "u" ex_url None false [] =
    (Ok {| r_file_url := "https://s3.example.com/media/signed";
           r_filename := "My File.csv"; r_bucket := Some "media"; r_public := false |},
     [CreateMultipartUpload (Some "media") "My File.csv" "private";
      CompleteMultipartUpload (Some "media") "My File.csv" "upload-1" [];
      GeneratePresignedUrl "get_object" (Some "media") "My File.csv" 3600]) /\
  upload_bodies [CreateMultipartUpload (Some "media") "My File.csv" "private";
      CompleteMultipartUpload (Some "media") "My File.csv" "upload-1" [];
      GeneratePresignedUrl "get_object" (Some "media") "My File.csv" 3600] = [].
Proof.
  split; [vm_compute; reflexivity|].
  refine (proj2 (no_empty_part ex_env ex_store_ok ex_http_empty "u" ex_url None false
    (Ok {| r_file_url := "https://s3.example.com/media/signed";
           r_filename := "My File.csv"; r_bucket := Some "media"; r_public := false |})
    _ _) {| chunks := []; stream_error := None |} _ _).
  - vm_compute. reflexivity.
  - reflexivity.
  - reflexivity.
Defined.

(** C8: after a successful completion, a public object's URL is
    endpoint + "/" + bucket + "/" + quote(key), and no signed URL is asked
    for; a private object's URL is the answer of the store to a
    [generate_presigned_url('get_object', ..., ExpiresIn=3600)] call made
    after the completion. *)
Theorem url_by_visibility env st http uuid4 url custom pub r tr :
  stream_upload_to_s3 env st http uuid4 url custom pub [] = (Ok r, tr) ->
  (exists b k u ps, In (CompleteMultipartUpload b k u ps) tr) /\
  (pub = true ->
     r_file_url r = (fstr (env_endpoint env) ++ "/" ++ fstr (env_bucket env) ++ "/"
                     ++ quote (r_filename r))%string /\
     (forall m b k x, ~ In (GeneratePresignedUrl m b k x) tr)) /\
  (pub = false ->
     exists h, tr = h ++ [GeneratePresignedUrl "get_object" (env_bucket env) (r_filename r) 3600] /\
       respond st h (GeneratePresignedUrl "get_object" (env_bucket env) (r_filename r) 3600)
         = Ok (r_file_url r) /\
       exists b k u ps, In (CompleteMultipartUpload b k u ps) h).
Proof.
  intros H. apply run_success in H. cbv zeta in H.
  destruct H as (f & u & resp & tags & tc & _ & _ & _ & _ & _ & _ & Hf & _ & _ & Htr).
  rewrite Hf.
  destruct pub; destruct Htr as [-> Hu].
  - split; [do 4 eexists; right; apply in_or_app; right; left; reflexivity|].
    split; [intros _; split; [exact Hu|]|intros; discriminate].
    intros m b k x [Hc|Hc]; [discriminate|].
    apply in_app_or in Hc as [Hc|[Hc|[]]]; [|discriminate].
    apply in_upload_calls in Hc as (n & bd & Hc). discriminate.
  - split; [do 4 eexists; right; apply in_or_app; right; left; reflexivity|].
    split; [intros; discriminate|intros _].
    match goal with |- exists h, ?a :: ?l ++ [?x; ?y] = _ /\ _ =>
      exists (a :: l ++ [x]) end.
    split; [|split; [exact Hu|]].
    + rewrite <- app_comm_cons, <- app_assoc. reflexivity.
    + do 4 eexists. right. apply in_or_app. right. left. reflexivity.
Qed.

Lemma url_by_visibility_witness :
  stream_upload_to_s3 ex_env ex_store_ok ex_http "u" ex_url None false [] =
    (Ok {| r_file_url := "https://s3.example.com/media/signed";
           r_filename := "My File.csv"; r_bucket := Some "media"; r_public := false |},
     snd (stream_upload_to_s3 ex_env ex_store_ok ex_http "u" ex_url None false [])) /\
  exists b k u ps, In (CompleteMultipartUpload b k u ps)
    (snd (stream_upload_to_s3 ex_env ex_store_ok ex_http "u" ex_url None false [])).
Proof.
  split; [vm_compute; reflexivity|].
  apply (url_by_visibility ex_env ex_store_ok ex_http "u" ex_url None false
    {| r_file_url := "https://s3.example.com/media/signed";
       r_filename := "My File.csv"; r_bucket := Some "media"; r_public := false |}
    (snd (stream_upload_to_s3 ex_env ex_store_ok ex_http "u" ex_url None false []))).
  vm_compute. reflexivity.
Defined.

Lemma manifest_numbers_witness :
  stream_upload_to_s3 ex_env ex_store_ok ex_http "u" ex_url None true [] =
    (Ok {| r_file_url := "https://s3.example.com/media/My%20File.csv";
           r_filename := "My File.csv"; r_bucket := Some "media"; r_public := true |},
     snd (stream_upload_to_s3 ex_env ex_store_ok ex_http "u" ex_url None true [])) /\
  exists bk key u parts,
    In (CompleteMultipartUpload bk key u parts)
      (snd (stream_upload_to_s3 ex_env ex_store_ok ex_http "u" ex_url None true [])) /\
    map fst parts = map Z.of_nat (seq 1 (length parts)) /\
    part_responses ex_store_ok
      (snd (stream_upload_to_s3 ex_env ex_store_ok ex_http "u" ex_url None true []))
    = map (fun p => (fst p, Ok (snd p))) parts.
Proof.
  split; [vm_compute; reflexivity|].
  apply (manifest_numbers ex_env ex_store_ok ex_http "u" ex_url None true
    {| r_file_url := "https://s3.example.com/media/My%20File.csv";
       r_filename := "My File.csv"; r_bucket := Some "media"; r_public := true |}
    (snd (stream_upload_to_s3 ex_env ex_store_ok ex_http "u" ex_url None true []))).
  vm_compute. reflexivity.
Defined.

(** C1 (as the code has it): once a store call raises, it is the last call
    of the run and its exception is the one the run raises, unchanged; in
    particular nothing follows a failed [upload_part] or
    [complete_multipart_upload] (no completion, no clean-up), and no run
    ever calls [abort_multipart_upload]. *)
Theorem failure_propagation env st http uuid4 url custom pub r tr :
  stream_upload_to_s3 env st http uuid4 url custom pub [] = (r, tr) ->
  (forall h c rest e, tr = h ++ c :: rest -> respond st h c = Err e ->
     rest = [] /\ r = Err e) /\
  count_abort tr = 0.
Proof.
  intros H. split.
  - intros h c rest e Et He. exact (run_fails_last _ _ _ _ _ _ _ _ _ H h c rest e Et He).
  - unfold count_abort. rewrite filter_none; [reflexivity|].
    eapply run_appends; [|exact H]. apply appends_run; reflexivity.
Qed.

Lemma failure_propagation_witness :
  stream_upload_to_s3 ex_env ex_store_part_fails ex_http "u" ex_url None false [] =
    (Err ex_error,
     [CreateMultipartUpload (Some "media") "My File.csv" "private";
      UploadPart (Some "media") "My File.csv" 1 "upload-1" [Byte.x68; Byte.x69; Byte.x21]]) /\
  count_abort
    [CreateMultipartUpload (Some "media") "My File.csv" "private";
     UploadPart (Some "media") "My File.csv" 1 "upload-1" [Byte.x68; Byte.x69; Byte.x21]] = 0.
Proof.
  split; [vm_compute; reflexivity|].
  refine (proj2 (failure_propagation ex_env ex_store_part_fails ex_http "u" ex_url None false
    (Err ex_error) _ _)).
  vm_compute. reflexivity.
Defined.

(** C1 does not hold: when the upload of part 1 fails after the multipart
    upload was created, the run raises the store's exception and has made
    no [abort_multipart_upload] call. *)
Lemma failure_propagation_no_abort :
  stream_upload_to_s3 ex_env ex_store_part_fails ex_http "u" ex_url None false [] =
    (Err ex_error,
     [CreateMultipartUpload (Some "media") "My File.csv" "private";
      UploadPart (Some "media") "My File.csv" 1 "upload-1" [Byte.x68; Byte.x69; Byte.x21]]) /\
  count_abort
    (snd (stream_upload_to_s3 ex_env ex_store_part_fails ex_http "u" ex_url None false [])) = 0.
Proof. split; vm_compute; reflexivity. Qed.

(** C4 (as the code has it): when [generate_presigned_url] raises, it does
    so after a [complete_multipart_upload] the store accepted, and the run
    raises that same exception, as it does for any failed upload call. *)
Theorem url_failure_after_completion env st http uuid4 url custom pub r h m b k x e :
  stream_upload_to_s3 env st http uuid4 url custom pub [] = (r, h ++ [GeneratePresignedUrl m b k x]) ->
  respond st h (GeneratePresignedUrl m b k x) = Err e ->
  r = Err e /\
  exists h' b' k' u ps t, h = h' ++ [CompleteMultipartUpload b' k' u ps] /\
    respond st h' (CompleteMultipartUpload b' k' u ps) = Ok t.
Proof.
  intros H He. split.
  - exact (proj2 (run_fails_last _ _ _ _ _ _ _ _ _ H h _ [] e eq_refl He)).
  - exact (run_presign_after_complete _ _ _ _ _ _ _ _ _ _ _ _ _ H).
Qed.

Lemma url_failure_after_completion_witness :
  stream_upload_to_s3 ex_env ex_store_sign_fails ex_http "u" ex_url None false [] =
    (Err ex_error,
     [CreateMultipartUpload (Some "media") "My File.csv" "private";
      UploadPart (Some "media") "My File.csv" 1 "upload-1" [Byte.x68; Byte.x69; Byte.x21];
      CompleteMultipartUpload (Some "media") "My File.csv" "upload-1" [(1%Z, "etag-1")]] ++
     [GeneratePresignedUrl "get_object" (Some "media") "My File.csv" 3600]) /\
  exists h' b' k' u ps t,
    [CreateMultipartUpload (Some "media") "My File.csv" "private";
     UploadPart (Some "media") "My File.csv" 1 "upload-1" [Byte.x68; Byte.x69; Byte.x21];
     CompleteMultipartUpload (Some "media") "My File.csv" "upload-1" [(1%Z, "etag-1")]]
    = h' ++ [CompleteMultipartUpload b' k' u ps] /\
    respond ex_store_sign_fails h' (CompleteMultipartUpload b' k' u ps) = Ok t.
Proof.
  split; [vm_compute; reflexivity|].
  refine (proj2 (url_failure_after_completion ex_env ex_store_sign_fails ex_http "u" ex_url None false
    (Err ex_error)
    [CreateMultipartUpload (Some "media") "My File.csv" "private";
     UploadPart (Some "media") "My File.csv" 1 "upload-1" [Byte.x68; Byte.x69; Byte.x21];
     CompleteMultipartUpload (Some "media") "My File.csv" "upload-1" [(1%Z, "etag-1")]]
    "get_object" (Some "media") "My File.csv" 3600 ex_error _ _));
    vm_compute; reflexivity.
Defined.

(** C4 does not hold: a run whose [generate_presigned_url] raises after the
    store accepted [complete_multipart_upload] ends with the same result as
    a run whose [complete_multipart_upload] raises, so the caller cannot
    tell that the object was stored. *)
Lemma url_failure_indistinct :
  respond ex_store_sign_fails
    [CreateMultipartUpload (Some "media") "My File.csv" "private";
     UploadPart (Some "media") "My File.csv" 1 "upload-1" [Byte.x68; Byte.x69; Byte.x21]]
    (CompleteMultipartUpload (Some "media") "My File.csv" "upload-1" [(1%Z, "etag-1")])
    = Ok ""%string /\
  stream_upload_to_s3 ex_env ex_store_sign_fails ex_http "u" ex_url None false [] =
    (Err ex_error,
     [CreateMultipartUpload (Some "media") "My File.csv" "private";
      UploadPart (Some "media") "My File.csv" 1 "upload-1" [Byte.x68; Byte.x69; Byte.x21];
      CompleteMultipartUpload (Some "media") "My File.csv" "upload-1" [(1%Z, "etag-1")];
      GeneratePresignedUrl "get_object" (Some "media") "My File.csv" 3600]) /\
  fst (stream_upload_to_s3 ex_env ex_store_sign_fails ex_http "u" ex_url None false []) =
  fst (stream_upload_to_s3 ex_env ex_store_complete_fails ex_http "u" ex_url None false []).
Proof. split; [|split]; vm_compute; reflexivity. Qed.

(** C5 (as the code has it): when [upload_part] raises for a part, that
    call is the last one of the run, the run raises the store's exception
    itself, with no wrapping that would add the part number or the stage,
    and no [abort_multipart_upload] is made before it propagates. *)
Theorem part_failure_reraised env st http uuid4 url custom pub r tr h b k n u body rest e :
  stream_upload_to_s3 env st http uuid4 url custom pub [] = (r, tr) ->
  tr = h ++ UploadPart b k n u body :: rest ->
  respond st h (UploadPart b k n u body) = Err e ->
  rest = [] /\ r = Err e /\ count_abort tr = 0.
Proof.
  intros H Et He.
  destruct (run_fails_last _ _ _ _ _ _ _ _ _ H h _ rest e Et He) as [Hr Hrr].
  split; [exact Hr|split; [exact Hrr|]].
  unfold count_abort. rewrite filter_none; [reflexivity|].
  eapply run_appends; [|exact H]. apply appends_run; reflexivity.
Qed.

Lemma part_failure_reraised_witness :
  stream_upload_to_s3 ex_env ex_store_part_fails ex_http "u" ex_url None false [] =
    (Err ex_error,
     [CreateMultipartUpload (Some "media") "My File.csv" "private";
      UploadPart (Some "media") "My File.csv" 1 "upload-1" [Byte.x68; Byte.x69; Byte.x21]]) /\
  respond ex_store_part_fails
    [CreateMultipartUpload (Some "media") "My File.csv" "private"]
    (UploadPart (Some "media") "My File.csv" 1 "upload-1" [Byte.x68; Byte.x69; Byte.x21])
    = Err ex_error /\
  (@nil call = [] /\ @Err UploadResult ex_error = Err ex_error /\
   count_abort
     [CreateMultipartUpload (Some "media") "My File.csv" "private";
      UploadPart (Some "media") "My File.csv" 1 "upload-1" [Byte.x68; Byte.x69; Byte.x21]] = 0).
Proof.
  split; [vm_compute; reflexivity|]. split; [reflexivity|].
  apply (part_failure_reraised ex_env ex_store_part_fails ex_http "u" ex_url None false
    (Err ex_error)
    [CreateMultipartUpload (Some "media") "My File.csv" "private";
     UploadPart (Some "media") "My File.csv" 1 "upload-1" [Byte.x68; Byte.x69; Byte.x21]]
    [CreateMultipartUpload (Some "media") "My File.csv" "private"]
    (Some "media") "My File.csv" 1 "upload-1" [Byte.x68; Byte.x69; Byte.x21] []);
    vm_compute; reflexivity.
Defined.

(** C5 does not hold: when part 1 fails, the run raises the store's
    [ClientError] unchanged, the same exception a failed completion gives;
    it carries neither the part number nor the stage. *)
Lemma part_error_unannotated :
  stream_upload_to_s3 ex_env ex_store_part_fails ex_http "u" ex_url None false [] =
    (Err (Exn "ClientError" "An error occurred (InternalError)"),
     [CreateMultipartUpload (Some "media") "My File.csv" "private";
      UploadPart (Some "media") "My File.csv" 1 "upload-1" [Byte.x68; Byte.x69; Byte.x21]]) /\
  fst (stream_upload_to_s3 ex_env ex_store_complete_fails ex_http "u" ex_url None false []) =
    Err (Exn "ClientError" "An error occurred (InternalError)").
Proof. split; vm_compute; reflexivity. Qed.

(** C9 (as the code has it): without a custom name the key is the part
    after the last '/' of the percent-decoded path of the URL (the path is
    decoded first, then cut); when that part is empty, the text of a fresh
    [uuid.uuid4()] is used. *)
Theorem filename_from_url url uuid4 k :
  get_filename_from_url url uuid4 = Ok k ->
  exists path pre base,
    urlparse_path url = Ok path /\
    unquote path = (pre ++ base)%string /\
    str_in "/"%char base = false /\
    (pre = ""%string \/ exists p', pre = (p' ++ "/")%string) /\
    k = (if str_truthy base then base else uuid4).
Proof.
  unfold get_filename_from_url. intros H.
  destruct (urlparse_path url) as [path|e]; [|discriminate]. injection H as <-.
  destruct (basename_split (unquote path)) as (pre & E & N & Mt).
  exists path, pre, (basename (unquote path)).
  split; [reflexivity|split; [exact E|split; [exact N|split; [|reflexivity]]]].
  destruct (str_rfind "/"%char (unquote path)); [right; exact Mt|left; exact Mt].
Qed.

Lemma filename_from_url_witness :
  get_filename_from_url ex_url "u" = Ok "My File.csv"%string /\
  exists path pre base,
    urlparse_path ex_url = Ok path /\
    unquote path = (pre ++ base)%string /\
    str_in "/"%char base = false /\
    (pre = ""%string \/ exists p', pre = (p' ++ "/")%string) /\
    "My File.csv"%string = (if str_truthy base then base else "u"%string).
Proof.
  split; [vm_compute; reflexivity|].
  apply (filename_from_url ex_url "u" "My File.csv"). vm_compute. reflexivity.
Defined.

(** C9 does not hold as worded: the path is decoded before its last part is
    taken, so an encoded '/' in the last segment cuts the name: for
    "https://host/a%2Fb" the key is "b", while the decoded last segment of
    the path "/a%2Fb" is "a/b". *)
Lemma filename_decoded_then_cut :
  urlparse_path "https://host/a%2Fb" = Ok "/a%2Fb"%string /\
  unquote (basename "/a%2Fb") = "a/b"%string /\
  get_filename_from_url "https://host/a%2Fb" "u" = Ok "b"%string.
Proof. split; [|split]; vm_compute; reflexivity. Qed.

(** C10: the key of a run is [custom_filename] exactly when it is a
    non-empty string; [None] and the empty string both fall back to the name
    derived from the URL, and the key is never empty (given a non-empty
    uuid4 text). *)
Theorem custom_filename_key env st http uuid4 url custom pub r tr b k a :
  uuid4 <> ""%string ->
  stream_upload_to_s3 env st http uuid4 url custom pub [] = (r, tr) ->
  In (CreateMultipartUpload b k a) tr ->
  k <> ""%string /\
  (custom = Some k <-> exists s, custom = Some s /\ str_truthy s = true) /\
  (forall s, custom = Some s -> str_truthy s = true -> k = s) /\
  ((custom = None \/ custom = Some ""%string) -> get_filename_from_url url uuid4 = Ok k).
Proof.
  intros U H Hin. pose proof (run_create_key _ _ _ _ _ _ _ _ _ _ _ _ H Hin) as C.
  unfold choose_filename in C.
  destruct custom as [s|].
  - destruct (str_truthy s) eqn:T.
    + injection C as ->. split; [apply str_truthy_nonempty; exact T|].
      split; [split; [intros _; exists k; auto|reflexivity]|].
      split; [intros s' E _; injection E as <-; reflexivity|].
      intros [E|E]; [discriminate|]. injection E as ->. discriminate T.
    + assert (K : k <> ""%string) by (eapply get_filename_nonempty; eauto).
      split; [exact K|split; [split|split]].
      * intros E. injection E as ->. exfalso. apply K. unfold str_truthy in T.
        destruct (String.eqb k "") eqn:Q; [apply String.eqb_eq; exact Q|discriminate T].
      * intros (s' & E & T'). injection E as <-. rewrite T in T'. discriminate.
      * intros s' E T'. injection E as <-. rewrite T in T'. discriminate.
      * intros _. exact C.
  - split; [eapply get_filename_nonempty; eauto|].
    split; [split; [discriminate|intros (s & E & _); discriminate]|].
    split; [discriminate|]. intros _. exact C.
Qed.

Lemma custom_filename_key_witness :
  stream_upload_to_s3 ex_env ex_store_ok ex_http "u" ex_url (Some ""%string) false [] =
    (Ok {| r_file_url := "https://s3.example.com/media/signed";
           r_filename := "My File.csv"; r_bucket := Some "media"; r_public := false |},
     snd (stream_upload_to_s3 ex_env ex_store_ok ex_http "u" ex_url (Some ""%string) false [])) /\
  In (CreateMultipartUpload (Some "media") "My File.csv" "private")
    (snd (stream_upload_to_s3 ex_env ex_store_ok ex_http "u" ex_url (Some ""%string) false [])) /\
  get_filename_from_url ex_url "u" = Ok "My File.csv"%string.
Proof.
  split; [vm_compute; reflexivity|]. split; [vm_compute; left; reflexivity|].
  refine (proj2 (proj2 (proj2 (custom_filename_key ex_env ex_store_ok ex_http "u" ex_url
    (Some ""%string) false
    (Ok {| r_file_url := "https://s3.example.com/media/signed";
           r_filename := "My File.csv"; r_bucket := Some "media"; r_public := false |})
    (snd (stream_upload_to_s3 ex_env ex_store_ok ex_http "u" ex_url (Some ""%string) false []))
    (Some "media") "My File.csv" "private" _ _ _))) (or_intror eq_refl)).
  - discriminate.
  - vm_compute. reflexivity.
  - vm_compute. left. reflexivity.
Defined.

(** * Further properties of the code *)

(** ** [quote] and [unquote] *)

Definition quote_safe (c : ascii) : bool :=
  is_ascii_alpha c || is_ascii_digit c || str_in c "_.-~/".

Lemma quote_safe_not_percent c : quote_safe c = true -> Ascii.eqb c "%"%char = false.
Proof.
  intros H. destruct (Ascii.eqb c "%"%char) eqn:E; [|reflexivity].
  apply Ascii.eqb_eq in E. subst c. vm_compute in H. discriminate H.
Qed.

Lemma hex_value_digit n : n < 16 -> hex_value (hex_digit n) = Some n.
Proof.
  intros Hn.
  do 16 (destruct n as [|n]; [reflexivity|]). lia.
Qed.

Lemma hex_digit_alnum n : n < 16 ->
  is_ascii_alpha (hex_digit n) || is_ascii_digit (hex_digit n) = true.
Proof.
  intros Hn.
  do 16 (destruct n as [|n]; [reflexivity|]). lia.
Qed.

Lemma unquote_app_safe c t :
  quote_safe c = true -> unquote (String c t) = String c (unquote t).
Proof. intros H. cbn [unquote]. rewrite (quote_safe_not_percent c H). reflexivity. Qed.

(** Percent-decoding the percent-encoded key gives the key back. *)
Lemma unquote_quote_id s : unquote (quote s) = s.
Proof.
  induction s as [|c r IH]; [reflexivity|].
  cbn [quote]. unfold quote_char.
  destruct (is_ascii_alpha c || is_ascii_digit c || str_in c "_.-~/") eqn:Sf.
  - cbn [append]. rewrite unquote_app_safe by exact Sf. rewrite IH. reflexivity.
  - cbn [append unquote Ascii.eqb Bool.eqb].
    pose proof (nat_ascii_bounded c) as Hb.
    rewrite !hex_value_digit by (apply Nat.mod_upper_bound || apply Nat.Div0.div_lt_upper_bound; lia).
    rewrite IH. f_equal.
    rewrite <- (Nat.div_mod_eq (nat_of_ascii c) 16). apply ascii_nat_embedding.
Qed.

(** X: in a successful public run, the URL returned is endpoint + "/" +
    bucket + "/" followed by a suffix that percent-decodes exactly to the
    key of the object: the key the multipart upload was created under, and
    the returned [filename].  This holds for every key, also one holding
    '/', which [quote] leaves as it is. *)
Theorem public_url_decodes_to_key env st http uuid4 url custom r tr :
  stream_upload_to_s3 env st http uuid4 url custom true [] = (Ok r, tr) ->
  exists suffix,
    r_file_url r = (fstr (env_endpoint env) ++ "/" ++ fstr (env_bucket env) ++ "/"
                    ++ suffix)%string /\
    unquote suffix = r_filename r /\
    hd_error tr = Some (CreateMultipartUpload (env_bucket env) (unquote suffix) "public-read").
Proof.
  intros H. apply run_success in H. cbv zeta in H.
  destruct H as (f & u & resp & tags & tc & _ & _ & _ & _ & _ & _ & Hf & _ & _ & [Htr Hu]).
  exists (quote f). rewrite unquote_quote_id, Hf, Htr.
  split; [exact Hu|split; reflexivity].
Qed.

Lemma public_url_decodes_to_key_witness :
  stream_upload_to_s3 ex_env ex_store_ok ex_http "u" ex_url None true [] =
    (Ok {| r_file_url := "https://s3.example.com/media/My%20File.csv";
           r_filename := "My File.csv"; r_bucket := Some "media"; r_public := true |},
     snd (stream_upload_to_s3 ex_env ex_store_ok ex_http "u" ex_url None true [])) /\
  exists suffix,
    "https://s3.example.com/media/My%20File.csv" =
      ("https://s3.example.com" ++ "/" ++ "media" ++ "/" ++ suffix)%string /\
    unquote suffix = "My File.csv" /\
    hd_error (snd (stream_upload_to_s3 ex_env ex_store_ok ex_http "u" ex_url None true [])) =
      Some (CreateMultipartUpload (Some "media") (unquote suffix) "public-read").
Proof.
  split; [vm_compute; reflexivity|].
  exact (public_url_decodes_to_key ex_env ex_store_ok ex_http "u" ex_url None
    {| r_file_url := "https://s3.example.com/media/My%20File.csv";
       r_filename := "My File.csv"; r_bucket := Some "media"; r_public := true |}
    (snd (stream_upload_to_s3 ex_env ex_store_ok ex_http "u" ex_url None true []))
    ltac:(vm_compute; reflexivity)).
Defined.

Lemma list_ascii_of_string_append a b :
  list_ascii_of_string (a ++ b) = list_ascii_of_string a ++ list_ascii_of_string b.
Proof. induction a as [|c a IH]; simpl; [reflexivity|]. rewrite IH. reflexivity. Qed.

(** X: the percent-encoded key is made of ASCII letters, digits, the
    characters "_.-~/" and '%' only: no space, '?', '#' or non-ASCII byte
    reaches the public URL. *)
Theorem quote_output_chars s :
  forallb (fun c => quote_safe c || Ascii.eqb c "%"%char) (list_ascii_of_string (quote s)) = true.
Proof.
  induction s as [|c r IH]; [reflexivity|].
  cbn [quote]. rewrite list_ascii_of_string_append, forallb_app, IH, andb_true_r.
  unfold quote_char, quote_safe.
  destruct (is_ascii_alpha c || is_ascii_digit c || str_in c "_.-~/") eqn:Sf.
  - simpl. rewrite Sf. reflexivity.
  - pose proof (nat_ascii_bounded c) as Hb.
    cbn [list_ascii_of_string forallb append]. unfold quote_safe.
    rewrite !hex_digit_alnum by (apply Nat.mod_upper_bound || apply Nat.Div0.div_lt_upper_bound; lia).
    reflexivity.
Qed.

(** X: a key made only of ASCII letters, digits and "_.-~/" appears in the
    public URL unchanged. *)
Theorem quote_keeps_safe s :
  forallb quote_safe (list_ascii_of_string s) = true -> quote s = s.
Proof.
  induction s as [|c r IH]; [reflexivity|].
  cbn [list_ascii_of_string forallb]. intros H. apply andb_prop in H as [Hc Hr].
  cbn [quote]. unfold quote_char. unfold quote_safe in Hc. rewrite Hc.
  cbn [append]. rewrite IH by exact Hr. reflexivity.
Qed.

Lemma quote_keeps_safe_witness :
  forallb quote_safe (list_ascii_of_string "reports/2024_q1-final.csv") = true /\
  quote "reports/2024_q1-final.csv" = "reports/2024_q1-final.csv"%string.
Proof.
  split; [vm_compute; reflexivity|].
  apply quote_keeps_safe. vm_compute. reflexivity.
Defined.

(** ** The path [urlparse] gives *)

Lemma str_in_cons c d x : str_in c (String d x) = Ascii.eqb c d || str_in c x.
Proof. unfold str_in. simpl. destruct (Ascii.eqb c d); [reflexivity|]. destruct (str_find c x); reflexivity. Qed.

Lemma str_in_take c : forall s i, str_in c s = false -> str_in c (str_take i s) = false.
Proof.
  unfold str_take. induction s as [|d r IH]; intros i H; destruct i as [|i]; try reflexivity.
  cbn [substring]. rewrite str_in_cons in *. apply orb_false_iff in H as [H1 H2].
  rewrite H1, IH by exact H2. reflexivity.
Qed.

Lemma str_find_take c : forall s i, str_find c s = Some i -> str_in c (str_take i s) = false.
Proof.
  unfold str_take. induction s as [|d r IH]; intros i H; [discriminate|].
  cbn [str_find] in H. destruct (Ascii.eqb c d) eqn:E.
  - injection H as <-. reflexivity.
  - destruct (str_find c r) as [j|] eqn:F; [|discriminate]. injection H as <-.
    cbn [substring]. rewrite str_in_cons, E, (IH j eq_refl). reflexivity.
Qed.

(** Cutting [u] at the first [c]: what [url.split(c, 1)[0]] keeps. *)
Lemma cut_no c u :
  str_in c (match str_find c u with Some i => str_take i u | None => u end) = false.
Proof.
  destruct (str_find c u) as [i|] eqn:F; [exact (str_find_take c u i F)|].
  unfold str_in. rewrite F. reflexivity.
Qed.

Lemma cut_keep c d u : str_in d u = false ->
  str_in d (match str_find c u with Some i => str_take i u | None => u end) = false.
Proof. intros H. destruct (str_find c u); [apply str_in_take|]; exact H. Qed.

Lemma splitparams_path_keep d u : str_in d u = false -> str_in d (splitparams_path u) = false.
Proof.
  intros H. unfold splitparams_path.
  destruct (str_rfind "/"%char u); [destruct (str_find ";"%char (str_drop _ u))|destruct (str_find ";"%char u)];
    try apply str_in_take; exact H.
Qed.

Ltac split_pair H := lazymatch type of H with
  | (match ?X with (_, _) => _ end) = _ => destruct X
  end.

(** X: the path [urlparse] gives never holds a '?' or a '#': the query and
    the fragment of the URL never reach the derived filename. *)
Theorem urlparse_path_no_query url p :
  urlparse_path url = Ok p ->
  str_in "?"%char p = false /\ str_in "#"%char p = false.
Proof.
  intros H. unfold urlparse_path in H. cbv zeta in H.
  split_pair H. split_pair H.
  destruct (xorb _ _); [discriminate|].
  destruct (existsb _ _ && _); injection H as <-;
    [split; apply splitparams_path_keep|split]; 
    first [apply cut_no | apply cut_keep, cut_no].
Qed.

Lemma urlparse_path_no_query_witness :
  urlparse_path "https://files.example.com/data/report.csv?token=a%2Fb#top" =
    Ok "/data/report.csv"%string /\
  str_in "?"%char "/data/report.csv" = false /\ str_in "#"%char "/data/report.csv" = false.
Proof.
  split; [vm_compute; reflexivity|].
  apply (urlparse_path_no_query "https://files.example.com/data/report.csv?token=a%2Fb#top").
  vm_compute. reflexivity.
Defined.

(** ** Runs that fail before or right after the session is opened *)

Lemma choose_filename_err custom url uuid4 e :
  choose_filename custom url uuid4 = Err e -> custom = None \/ custom = Some ""%string.
Proof.
  unfold choose_filename. intros H.
  destruct custom as [s|]; [|left; reflexivity].
  destruct (str_truthy s) eqn:T; [discriminate|]. right.
  unfold str_truthy in T. destruct (String.eqb s "") eqn:Q; [|discriminate].
  apply String.eqb_eq in Q. subst s. reflexivity.
Qed.

(** X: no S3 call is made when building the client fails, nor when the
    filename cannot be derived from the URL; the latter can only happen
    when no custom name is given (None or ""), and the run raises the
    error of the parsing unchanged. *)
Theorem run_fails_before_session env st http uuid4 url custom pub :
  (forall e, s3_client_error env = Some e ->
     stream_upload_to_s3 env st http uuid4 url custom pub [] = (Err e, [])) /\
  (s3_client_error env = None -> forall e, choose_filename custom url uuid4 = Err e ->
     stream_upload_to_s3 env st http uuid4 url custom pub [] = (Err e, []) /\
     (custom = None \/ custom = Some ""%string)).
Proof.
  split.
  - intros e He. unfold stream_upload_to_s3, except_reraise, get_s3_client.
    cbv [bind lift]. rewrite He. reflexivity.
  - intros Hc e He. split; [|exact (choose_filename_err _ _ _ _ He)].
    unfold stream_upload_to_s3, except_reraise, get_s3_client.
    cbv [bind lift]. rewrite Hc, He. reflexivity.
Qed.

Lemma run_fails_before_session_witness :
  choose_filename None "http://[::1/file.csv" "u" = Err (Exn "ValueError" "Invalid IPv6 URL") /\
  stream_upload_to_s3 ex_env ex_store_ok ex_http "u" "http://[::1/file.csv" None false [] =
    (Err (Exn "ValueError" "Invalid IPv6 URL"), []).
Proof.
  split; [vm_compute; reflexivity|].
  exact (proj1 (proj2 (run_fails_before_session ex_env ex_store_ok ex_http "u" "http://[::1/file.csv"
    None false) eq_refl (Exn "ValueError" "Invalid IPv6 URL") ltac:(vm_compute; reflexivity))).
Defined.

(** X: when [create_multipart_upload] raises, or when fetching the source
    fails after it, the run raises that error and its only S3 call is the
    [create_multipart_upload]; in the second case the multipart upload the
    store opened is left open. *)
Theorem run_fails_at_session_start env st http uuid4 url custom (pub : bool) f :
  s3_client_error env = None ->
  choose_filename custom url uuid4 = Ok f ->
  let c0 := CreateMultipartUpload (env_bucket env) f (if pub then "public-read" else "private") in
  (forall e, respond st [] c0 = Err e ->
     stream_upload_to_s3 env st http uuid4 url custom pub [] = (Err e, [c0])) /\
  (forall u e, respond st [] c0 = Ok u -> http url = Err e ->
     stream_upload_to_s3 env st http uuid4 url custom pub [] = (Err e, [c0])).
Proof.
  intros Hc Hf c0. split.
  - intros e He. unfold stream_upload_to_s3, except_reraise, get_s3_client.
    cbv [bind lift s3]. rewrite Hc, Hf. fold c0. cbn [app]. rewrite He. reflexivity.
  - intros u e Hu He. unfold stream_upload_to_s3, except_reraise, get_s3_client.
    cbv [bind lift s3]. rewrite Hc, Hf. fold c0. cbn [app]. rewrite Hu, He. reflexivity.
Qed.

Lemma run_fails_at_session_start_witness :
  stream_upload_to_s3 ex_env ex_store_ok (fun _ : string => @Err Response (Exn "HTTPError" "404 Client Error"))
    "u" ex_url None false [] =
    (Err (Exn "HTTPError" "404 Client Error"),
     [CreateMultipartUpload (Some "media") "My File.csv" "private"]).
Proof.
  exact (proj2 (run_fails_at_session_start ex_env ex_store_ok
    (fun _ : string => @Err Response (Exn "HTTPError" "404 Client Error")) "u" ex_url None false "My File.csv"
    eq_refl ltac:(vm_compute; reflexivity)) "upload-1" (Exn "HTTPError" "404 Client Error")
    eq_refl eq_refl).
Defined.

(** ** A source stream that breaks *)

Definition full_part_or_other (c : call) : Prop :=
  is_complete c = false /\
  match c with UploadPart _ _ _ _ b => (chunk_size <= Z.of_nat (length b))%Z | _ => True end.

(** X: when the source stream raises while it is read, the run fails, never
    calls [complete_multipart_upload], and has uploaded only full parts of
    at least [chunk_size] bytes: the bytes left in the buffer are dropped
    and the multipart upload is left open. *)
Theorem run_stream_error env st http uuid4 url custom pub r tr resp e :
  http url = Ok resp -> stream_error resp = Some e ->
  stream_upload_to_s3 env st http uuid4 url custom pub [] = (r, tr) ->
  (exists e', r = Err e') /\ count_complete tr = 0 /\
  Forall (fun b => (chunk_size <= Z.of_nat (length b))%Z) (upload_bodies tr).
Proof.
  intros Hh Hse H.
  enough (G : (exists e', r = Err e') /\ Forall full_part_or_other tr).
  { destruct G as [G F]. split; [exact G|split].
    - unfold count_complete. rewrite filter_none; [reflexivity|].
      eapply Forall_impl; [|exact F]. intros c [Hc _]. exact Hc.
    - apply Forall_upload_bodies. eapply Forall_impl; [|exact F]. intros c [_ Hc]. exact Hc. }
  unfold stream_upload_to_s3, except_reraise in H. cbv [bind lift s3 ret] in H.
  destruct (get_s3_client env) as [[]|e1];
    [|injection H as <- <-; split; [eexists; reflexivity|constructor]].
  destruct (choose_filename custom url uuid4) as [f|e1];
    [|injection H as <- <-; split; [eexists; reflexivity|constructor]].
  cbv beta iota zeta in H.
  set (c0 := CreateMultipartUpload _ _ _) in H.
  assert (P0 : full_part_or_other c0) by (split; exact I || reflexivity).
  destruct (respond st [] c0) as [u|e1];
    [|injection H as <- <-; split; [eexists; reflexivity|repeat constructor; exact P0]].
  rewrite Hh in H. change ([] ++ [c0]) with [c0] in H.
  destruct (appends_upload_loop st full_part_or_other (env_bucket env) f u
              ltac:(intros n body Hb; split; [reflexivity|exact Hb])
              (chunks resp) [] 1 [] [c0]) as [new [En Fn]].
  destruct (upload_loop st _ _ _ _ _ _ _ [c0]) as [[[[buffer pn] parts]|e1] s1];
    simpl in En; subst s1.
  - unfold iter_end in H. rewrite Hse in H. injection H as <- <-.
    split; [eexists; reflexivity|constructor; assumption].
  - injection H as <- <-. split; [eexists; reflexivity|constructor; assumption].
Qed.

Lemma run_stream_error_witness :
  stream_upload_to_s3 ex_env ex_store_ok
    (fun _ => Ok {| chunks := [[Byte.x68; Byte.x69]]; stream_error := Some ex_error |})
    "u" ex_url None false [] =
    (Err ex_error, [CreateMultipartUpload (Some "media") "My File.csv" "private"]) /\
  count_complete [CreateMultipartUpload (Some "media") "My File.csv" "private"] = 0.
Proof.
  split; [vm_compute; reflexivity|].
  refine (proj1 (proj2 (run_stream_error ex_env ex_store_ok
    (fun _ => Ok {| chunks := [[Byte.x68; Byte.x69]]; stream_error := Some ex_error |})
    "u" ex_url None false (Err ex_error) _
    {| chunks := [[Byte.x68; Byte.x69]]; stream_error := Some ex_error |} ex_error
    eq_refl eq_refl _))).
  vm_compute. reflexivity.
Defined.

(** ** Successful runs: one session, one bucket, one key *)

Lemma upload_calls_forall (P : call -> Prop) bk f u bodies pn :
  (forall n b, P (UploadPart bk f n u b)) -> Forall P (upload_calls bk f u bodies pn).
Proof.
  intros HP. apply Forall_forall. intros c Hc.
  destruct (in_upload_calls bk f u bodies pn c Hc) as (n & b & ->). apply HP.
Qed.

(** X: a successful run works on one multipart upload: its first call is the
    only [create_multipart_upload], every call names the bucket
    [S3_BUCKET_NAME] and the key returned as [filename], every
    [upload_part] and the [complete_multipart_upload] name the [UploadId]
    the store returned, exactly one [complete_multipart_upload] is made and
    no part is uploaded after it. *)
Theorem run_success_session env st http uuid4 url custom pub r tr :
  stream_upload_to_s3 env st http uuid4 url custom pub [] = (Ok r, tr) ->
  let c0 := CreateMultipartUpload (env_bucket env) (r_filename r)
              (if pub then "public-read" else "private") in
  exists u,
    respond st [] c0 = Ok u /\ hd_error tr = Some c0 /\
    Forall (fun c => call_bucket c = env_bucket env /\ call_key c = r_filename r /\
                     (call_upload_id c = None \/ call_upload_id c = Some u)) tr /\
    count_create tr = 1 /\ count_complete tr = 1 /\
    (exists h ps post, tr = h ++ CompleteMultipartUpload (env_bucket env) (r_filename r) u ps :: post /\
                       upload_bodies post = []) /\
    r_bucket r = env_bucket env /\ r_public r = pub.
Proof.
  intros H. apply run_success in H. cbv zeta in H.
  destruct H as (f & u & resp & tags & tc & _ & Hu & _ & _ & _ & _ & Hf & Hb & Hp & Htr).
  rewrite Hf, Hb, Hp. exists u.
  set (ucs := upload_calls (env_bucket env) f u (planned_bodies (chunks resp)) 1).
  assert (Fu : Forall (fun c => call_bucket c = env_bucket env /\ call_key c = f /\
                     (call_upload_id c = None \/ call_upload_id c = Some u)) ucs).
  { apply upload_calls_forall. intros. repeat split; right; reflexivity. }
  assert (Cu : filter is_create ucs = [] /\ filter is_complete ucs = []).
  { split; apply filter_none, upload_calls_forall; reflexivity. }
  destruct Cu as [Cr Cm].
  split; [exact Hu|].
  destruct pub; destruct Htr as [-> _].
  - split; [reflexivity|]. split.
    { constructor; [split; [reflexivity|split; [reflexivity|left; reflexivity]]|].
      apply Forall_app. split; [exact Fu|].
      constructor; [split; [reflexivity|split; [reflexivity|right; reflexivity]]|constructor]. }
    unfold count_create, count_complete. cbn [filter is_create is_complete].
    fold ucs. rewrite !filter_app, Cr, Cm. cbn.
    split; [reflexivity|split; [reflexivity|split; [|repeat split]]].
    exists (CreateMultipartUpload (env_bucket env) f "public-read" :: ucs), (numbered 1 tags), [].
    split; reflexivity.
  - split; [reflexivity|]. split.
    { constructor; [split; [reflexivity|split; [reflexivity|left; reflexivity]]|].
      apply Forall_app. split; [exact Fu|].
      constructor; [split; [reflexivity|split; [reflexivity|right; reflexivity]]|].
      constructor; [split; [reflexivity|split; [reflexivity|left; reflexivity]]|constructor]. }
    unfold count_create, count_complete. cbn [filter is_create is_complete].
    fold ucs. rewrite !filter_app, Cr, Cm. cbn.
    split; [reflexivity|split; [reflexivity|split; [|repeat split]]].
    exists (CreateMultipartUpload (env_bucket env) f "private" :: ucs), (numbered 1 tags),
      [GeneratePresignedUrl "get_object" (env_bucket env) f 3600].
    split; reflexivity.
Qed.

Lemma run_success_session_witness :
  stream_upload_to_s3 ex_env ex_store_ok ex_http "u" ex_url None false [] =
    (Ok {| r_file_url := "https://s3.example.com/media/signed";
           r_filename := "My File.csv"; r_bucket := Some "media"; r_public := false |},
     snd (stream_upload_to_s3 ex_env ex_store_ok ex_http "u" ex_url None false [])) /\
  count_complete (snd (stream_upload_to_s3 ex_env ex_store_ok ex_http "u" ex_url None false [])) = 1.
Proof.
  split; [vm_compute; reflexivity|].
  destruct (run_success_session ex_env ex_store_ok ex_http "u" ex_url None false
    {| r_file_url := "https://s3.example.com/media/signed";
       r_filename := "My File.csv"; r_bucket := Some "media"; r_public := false |}
    (snd (stream_upload_to_s3 ex_env ex_store_ok ex_http "u" ex_url None false []))
    ltac:(vm_compute; reflexivity)) as (u & _ & _ & _ & _ & Hc & _).
  exact Hc.
Defined.

(** ** Sizes and number of the parts *)

Lemma split_parts_small (m : nat) : forall it buffer,
  Forall (fun ch => length ch <= m) it ->
  (Z.of_nat (length buffer) < chunk_size)%Z ->
  Forall (fun b => (Z.of_nat (length b) < chunk_size + Z.of_nat m)%Z) (fst (split_parts it buffer)) /\
  (Z.of_nat (length (snd (split_parts it buffer))) < chunk_size)%Z.
Proof.
  induction it as [|chunk it IH]; intros buffer F Hb.
  { cbn [split_parts fst snd]. split; [constructor|exact Hb]. }
  inversion F as [|x y Hc Fit]; subst.
  cbn [split_parts].
  destruct (Z.of_nat (length (buffer ++ chunk)) >=? chunk_size)%Z eqn:E.
  - assert (H0 : (Z.of_nat (length (@nil Byte.byte)) < chunk_size)%Z)
      by (cbn [length Z.of_nat]; unfold chunk_size; lia).
    destruct (IH [] Fit H0) as [F1 R1].
    destruct (split_parts it []) as [ps r]. cbn [fst snd] in *. split; [|exact R1].
    constructor; [|exact F1]. rewrite length_app in *. apply Z.geb_le in E. lia.
  - rewrite Z.geb_leb, Z.leb_gt in E. apply IH; [exact Fit|exact E].
Qed.

Lemma planned_bodies_small (m : nat) it :
  Forall (fun ch => length ch <= m) it ->
  Forall (fun b => (Z.of_nat (length b) < chunk_size + Z.of_nat m)%Z) (planned_bodies it).
Proof.
  intros F. unfold planned_bodies.
  destruct (split_parts_small m it [] F ltac:(simpl; unfold chunk_size; lia)) as [F1 R1].
  destruct (split_parts it []) as [ps r]. cbn [fst snd] in *.
  apply Forall_app. split; [exact F1|].
  destruct (bytes_truthy r); [constructor; [lia|constructor]|constructor].
Qed.

(** X: when every chunk the source yields has at most [m] bytes, every part
    the run uploads has fewer than [chunk_size + m] bytes; with the 1 MiB
    chunks [iter_content(chunk_size=1024 * 1024)] asks for, a part is
    smaller than 6 MiB. *)
Theorem run_part_size env st http uuid4 url custom pub r tr resp (m : nat) :
  http url = Ok resp ->
  Forall (fun ch => length ch <= m) (chunks resp) ->
  stream_upload_to_s3 env st http uuid4 url custom pub [] = (r, tr) ->
  Forall (fun b => (Z.of_nat (length b) < chunk_size + Z.of_nat m)%Z) (upload_bodies tr).
Proof.
  intros Hh F H. apply Forall_upload_bodies.
  eapply run_appends; [|exact H]. apply appends_run; try (intros; exact I).
  intros f resp' n u body Hh' Hb. rewrite Hh in Hh'. injection Hh' as <-.
  pose proof (planned_bodies_small m _ F) as G. rewrite Forall_forall in G. exact (G body Hb).
Qed.

Lemma run_part_size_witness :
  Forall (fun b => (Z.of_nat (length b) < chunk_size + Z.of_nat 2)%Z)
    (upload_bodies (snd (stream_upload_to_s3 ex_env ex_store_ok ex_http "u" ex_url None false []))).
Proof.
  apply (run_part_size ex_env ex_store_ok ex_http "u" ex_url None false
    (fst (stream_upload_to_s3 ex_env ex_store_ok ex_http "u" ex_url None false []))
    (snd (stream_upload_to_s3 ex_env ex_store_ok ex_http "u" ex_url None false []))
    {| chunks := [[Byte.x68; Byte.x69]; [Byte.x21]]; stream_error := None |} 2).
  - reflexivity.
  - repeat constructor.
  - apply surjective_pairing.
Defined.

Lemma count_bound (l : list bytes) :
  Forall (fun b => (chunk_size <= Z.of_nat (length b))%Z) (removelast l) ->
  ((Z.of_nat (length l) - 1) * chunk_size <= Z.of_nat (length (concat l)))%Z.
Proof.
  induction l as [|x l IH]; intros F; [cbn [length concat]; unfold chunk_size; lia|].
  destruct l as [|y l].
  - cbn [length]. unfold chunk_size. lia.
  - change (removelast (x :: y :: l)) with (x :: removelast (y :: l)) in F.
    inversion F as [|a b Hx Fr]; subst. specialize (IH Fr).
    cbn [concat length] in *. rewrite !length_app in *. unfold chunk_size in *. lia.
Qed.

(** X: a successful run that reads [N] bytes from the source uploads [K]
    parts with [(K - 1) * chunk_size <= N], and at least one part when
    [N > 0]. *)
Theorem run_part_count env st http uuid4 url custom pub r tr resp :
  stream_upload_to_s3 env st http uuid4 url custom pub [] = (Ok r, tr) ->
  http url = Ok resp ->
  ((Z.of_nat (length (upload_bodies tr)) - 1) * chunk_size
     <= Z.of_nat (length (concat (chunks resp))))%Z /\
  (0 < length (concat (chunks resp)) -> 0 < length (upload_bodies tr)).
Proof.
  intros H Hh. rewrite (run_success_bodies _ _ _ _ _ _ _ _ _ _ H Hh).
  rewrite <- planned_bodies_concat. split.
  - apply count_bound, planned_bodies_big.
  - destruct (planned_bodies (chunks resp)); simpl; lia.
Qed.

Lemma run_part_count_witness :
  stream_upload_to_s3 ex_env ex_store_ok ex_http "u" ex_url None true [] =
    (Ok {| r_file_url := "https://s3.example.com/media/My%20File.csv";
           r_filename := "My File.csv"; r_bucket := Some "media"; r_public := true |},
     snd (stream_upload_to_s3 ex_env ex_store_ok ex_http "u" ex_url None true [])) /\
  0 < length (upload_bodies (snd (stream_upload_to_s3 ex_env ex_store_ok ex_http "u" ex_url None true []))).
Proof.
  split; [vm_compute; reflexivity|].
  apply (proj2 (run_part_count ex_env ex_store_ok ex_http "u" ex_url None true
    {| r_file_url := "https://s3.example.com/media/My%20File.csv";
       r_filename := "My File.csv"; r_bucket := Some "media"; r_public := true |}
    (snd (stream_upload_to_s3 ex_env ex_store_ok ex_http "u" ex_url None true []))
    {| chunks := [[Byte.x68; Byte.x69]; [Byte.x21]]; stream_error := None |}
    ltac:(vm_compute; reflexivity) eq_refl)).
  simpl. lia.
Defined.

(** ** [config] *)

(** X: importing [config] fails with [ValueError] when [API_KEY] is unset
    or empty; when it succeeds, [config.API_KEY] is the non-empty value of
    the variable. *)
Theorem config_module_api_key environ :
  ((environ "API_KEY" = None \/ environ "API_KEY" = Some ""%string) ->
     config_module environ = Err (Exn "ValueError" "API_KEY environment variable is not set")) /\
  (forall c, config_module environ = Ok c ->
     environ "API_KEY" = Some (API_KEY c) /\ API_KEY c <> ""%string).
Proof.
  unfold config_module. split.
  - intros [E|E]; rewrite E; reflexivity.
  - intros c. destruct (environ "API_KEY") as [k|]; [|discriminate].
    cbn [opt_truthy]. destruct (str_truthy k) eqn:T; [|discriminate].
    intros H. injection H as <-. split; [reflexivity|]. apply str_truthy_nonempty. exact T.
Qed.

Lemma config_module_api_key_witness :
  config_module (fun k => if String.eqb k "API_KEY" then Some ""%string else None) =
    Err (Exn "ValueError" "API_KEY environment variable is not set").
Proof.
  apply (proj1 (config_module_api_key (fun k => if String.eqb k "API_KEY" then Some ""%string else None))).
  right. reflexivity.
Defined.

Definition s3_vars : list string :=
  ["S3_BUCKET_NAME"; "S3_REGION"; "S3_ENDPOINT_URL"; "S3_ACCESS_KEY"; "S3_SECRET_KEY"].

Lemma filter_negb_nil {X} (g : X -> bool) l :
  filter (fun x => negb (g x)) l = [] <-> Forall (fun x => g x = true) l.
Proof.
  induction l as [|x l IH]; simpl; [split; auto|].
  destruct (g x) eqn:G; simpl.
  - rewrite IH. split; [intros F; constructor; auto|intros F; inversion F; auto].
  - split; [discriminate|intros F; inversion F; congruence].
Qed.

Lemma validate_env_vars_s3_ok environ :
  validate_env_vars environ "S3" = Ok tt <->
  Forall (fun v => opt_truthy (environ v) = true) s3_vars.
Proof.
  unfold validate_env_vars. cbn [required_vars dict_getitem String.eqb Ascii.eqb Bool.eqb].
  fold s3_vars. rewrite <- filter_negb_nil.
  destruct (filter _ s3_vars); split; congruence.
Qed.

(** X: [validate_env_vars] raises [KeyError] for any provider but 'S3'; for
    'S3' it passes exactly when the five [S3_*] variables are all set and
    non-empty, and otherwise raises a [ValueError] that lists exactly the
    unset or empty ones, in the order of [required_vars]. *)
Theorem validate_env_vars_spec environ :
  (forall p, p <> "S3"%string -> validate_env_vars environ p = Err (Exn "KeyError" p)) /\
  (validate_env_vars environ "S3" = Ok tt <->
     Forall (fun v => opt_truthy (environ v) = true) s3_vars) /\
  (forall e, validate_env_vars environ "S3" = Err e ->
     exists missing, missing <> [] /\
       e = Exn "ValueError" ("Missing environment variables for S3 storage: "
                             ++ str_join ", " missing)%string /\
       missing = filter (fun v => negb (opt_truthy (environ v))) s3_vars /\
       (forall v, In v missing <-> In v s3_vars /\ opt_truthy (environ v) = false)).
Proof.
  split; [|split].
  - intros p Hp. unfold validate_env_vars. cbn [required_vars dict_getitem].
    destruct (String.eqb p "S3") eqn:E; [apply String.eqb_eq in E; contradiction|reflexivity].
  - apply validate_env_vars_s3_ok.
  - intros e. unfold validate_env_vars. cbn [required_vars dict_getitem String.eqb Ascii.eqb Bool.eqb].
    fold s3_vars.
    destruct (filter (fun var => negb (opt_truthy (environ var))) s3_vars) as [|x l] eqn:Fl;
      [discriminate|].
    intros H. injection H as <-. exists (x :: l).
    split; [discriminate|split; [reflexivity|split; [reflexivity|]]].
    intros v. rewrite <- Fl, filter_In, negb_true_iff. reflexivity.
Qed.

Lemma validate_env_vars_spec_witness :
  validate_env_vars ex_environ "S3" =
    Err (Exn "ValueError" "Missing environment variables for S3 storage: S3_REGION") /\
  validate_env_vars ex_environ "GCP" = Err (Exn "KeyError" "GCP").
Proof.
  split; [vm_compute; reflexivity|].
  apply (proj1 (validate_env_vars_spec ex_environ)). discriminate.
Defined.

Lemma opt_truthy_some o : opt_truthy o = true -> exists x, o = Some x /\ x <> ""%string.
Proof.
  destruct o as [x|]; [|discriminate]. intros T. exists x. split; [reflexivity|].
  apply str_truthy_nonempty. exact T.
Qed.

(** X: a provider [get_storage_provider] returns is an
    [S3CompatibleProvider] whose five attributes are the values of the
    [S3_*] variables, all set and non-empty; its [upload_file] never raises
    [NotImplementedError] and hands [upload_to_s3] these five values. *)
Theorem get_storage_provider_ok environ prov :
  get_storage_provider environ = Ok prov ->
  exists b rg ep ak sk,
    environ "S3_BUCKET_NAME" = Some b /\ environ "S3_REGION" = Some rg /\
    environ "S3_ENDPOINT_URL" = Some ep /\ environ "S3_ACCESS_KEY" = Some ak /\
    environ "S3_SECRET_KEY" = Some sk /\
    Forall (fun x => x <> ""%string) [b; rg; ep; ak; sk] /\
    forall upload_to_s3 file_path,
      upload_file upload_to_s3 prov file_path =
        upload_to_s3 file_path (Some b) (Some rg) (Some ep) (Some ak) (Some sk).
Proof.
  unfold get_storage_provider. intros H.
  destruct (validate_env_vars environ "S3") as [[]|e] eqn:V; [|discriminate].
  injection H as <-.
  apply validate_env_vars_s3_ok in V. unfold s3_vars in V.
  repeat match goal with
  | F : Forall _ (_ :: _) |- _ => inversion F; subst; clear F
  end.
  repeat match goal with
  | T : opt_truthy (environ ?v) = true |- _ =>
      let x := fresh "x" in let Ex := fresh "E" in let Nx := fresh "N" in
      destruct (opt_truthy_some _ T) as (x & Ex & Nx); clear T
  end.
  do 5 eexists. do 5 (split; [eassumption|]).
  split.
  - repeat constructor; assumption.
  - intros upload_to_s3 file_path. unfold upload_file, S3CompatibleProvider_init. cbn.
    repeat match goal with E : environ _ = _ |- _ => rewrite E; clear E end. reflexivity.
Qed.

Lemma get_storage_provider_ok_witness :
  exists b rg ep ak sk,
    (fun k => if String.eqb k "S3_REGION" then Some "us-east-1"%string else ex_environ k)
      "S3_BUCKET_NAME" = Some b /\
    Forall (fun x => x <> ""%string) [b; rg; ep; ak; sk].
Proof.
  destruct (get_storage_provider_ok
    (fun k => if String.eqb k "S3_REGION" then Some "us-east-1"%string else ex_environ k)
    (S3Provider {| bucket_name := Some "media"; region := Some "us-east-1";
                   endpoint_url := Some "https://s3.example.com"; access_key := Some "AKIA";
                   secret_key := Some "secret" |})
    ltac:(vm_compute; reflexivity)) as (b & rg & ep & ak & sk & Hb & _ & _ & _ & _ & Hf & _).
  exists b, rg, ep, ak, sk. split; assumption.
Defined.

(** X: [get_storage_provider] reads only the five [S3_*] variables: two
    environments that agree on them give the same result, whatever their
    [MINIO_*] variables, which [config] reads into its own [S3_*]
    constants, hold. *)
Theorem get_storage_provider_reads_s3_vars env1 env2 :
  (forall v, In v s3_vars -> env1 v = env2 v) ->
  get_storage_provider env1 = get_storage_provider env2.
Proof.
  intros H. unfold s3_vars in H.
  assert (E1 := H "S3_BUCKET_NAME"%string ltac:(simpl; tauto)).
  assert (E2 := H "S3_REGION"%string ltac:(simpl; tauto)).
  assert (E3 := H "S3_ENDPOINT_URL"%string ltac:(simpl; tauto)).
  assert (E4 := H "S3_ACCESS_KEY"%string ltac:(simpl; tauto)).
  assert (E5 := H "S3_SECRET_KEY"%string ltac:(simpl; tauto)).
  unfold get_storage_provider, validate_env_vars, S3CompatibleProvider_init.
  cbn [required_vars dict_getitem String.eqb Ascii.eqb Bool.eqb filter].
  rewrite E1, E2, E3, E4, E5. reflexivity.
Qed.

Lemma get_storage_provider_reads_s3_vars_witness :
  get_storage_provider ex_environ =
  get_storage_provider (fun k => if String.eqb k "MINIO_BUCKET_NAME" then Some "other"%string
                                 else ex_environ k).
Proof.
  apply get_storage_provider_reads_s3_vars. intros v Hv.
  simpl in Hv. repeat destruct Hv as [<-|Hv]; try reflexivity. contradiction.
Defined.
